(** * Account monitor: classification, aggregation and dashboard helpers

    A shallow embedding of [internal/api/handlers/management/account_monitor.go]:
    the Go handler [GetAccountsMonitor] (projection of registry records to the
    wire struct, the counting loop, the two initialisation guards), the JSON
    encoding given by the struct tags of [AccountStatus], and the functions of
    the embedded dashboard script ([getAccountStatus], [formatDuration], the
    filter and the card parts of [renderAccounts], [getStatusText],
    [escapeHtml], [fetchAccounts], [setupAutoRefresh]). *)

From Stdlib Require Import ZArith Lia Bool Ascii String DecimalString.
From stdpp Require Import base option list gmap strings.

Local Open Scope string_scope.
Local Open Scope list_scope.
Local Open Scope Z_scope.

(** ** Go's [time.Time]

    An instant is the number of nanoseconds elapsed since Go's zero time
    (January 1, year 1, 00:00:00 UTC).  [IsZero] and [After] are the two
    methods the handler calls. *)
Module time.
Definition Time := Z.

Definition IsZero (t : Time) : bool := t =? 0.

(* t.After(u): t is strictly later than u *)
Definition After (t u : Time) : bool := u <? t.

Definition Second : Z := 1000000000.

(* t.Add(d) *)
Definition Add (t : Time) (d : Z) : Time := t + d.
End time.

(** ** Go's [int]: 64-bit two's complement *)
Definition int_min : Z := - 2 ^ 63.
Definition int_max : Z := 2 ^ 63 - 1.

Definition wrap_int (z : Z) : Z := (z + 2 ^ 63) mod 2 ^ 64 - 2 ^ 63.

(* x++ on an int *)
Definition int_incr (x : Z) : Z := wrap_int (x + 1).

(** ** Registry records (read-only collaborator types)

    The fields are the ones the handler reads from [*coreauth.Auth]. *)

(* a value stored in the [map[string]any] metadata *)
Inductive MetaValue :=
  | MetaString (s : string)
  | MetaNumber (z : Z)
  | MetaBool (b : bool)
  | MetaNull.

Record Error := {
  Code : string;
  Message : string;
  HTTPStatus : Z
}.

Record QuotaState := {
  Exceeded : bool;
  Reason : string;
  NextRecoverAt : time.Time;
  BackoffLevel : Z
}.

Record Auth := {
  ID : string;
  Index : Z;
  Provider : string;
  Label : string;
  Status : string;
  StatusMessage : string;
  Disabled : bool;
  Unavailable : bool;
  Quota : QuotaState;
  LastError : option Error;               (* *Error, nil when absent *)
  CreatedAt : time.Time;
  UpdatedAt : time.Time;
  NextRetryAfter : time.Time;
  Metadata : option (gmap string MetaValue) (* nil map when absent *)
}.

(** ** Wire struct [AccountStatus] and response [AccountsMonitorResponse] *)

(* a value of the [map[string]interface{}] built for [last_error] *)
Inductive JSONValue :=
  | JString (s : string)
  | JNumber (z : Z).

Record AccountStatus := {
  as_ID : string;
  as_Provider : string;
  as_Label : string;
  as_Email : string;
  as_Status : string;
  as_StatusMessage : string;
  as_Disabled : bool;
  as_Unavailable : bool;
  as_QuotaExceeded : bool;
  as_QuotaReason : string;
  as_NextRecoverAt : option time.Time;      (* *time.Time *)
  as_NextRetryAt : option time.Time;        (* *time.Time *)
  as_BackoffLevel : Z;
  as_LastError : option (gmap string JSONValue); (* nil map when unset *)
  as_LastRefresh : option time.Time;        (* *time.Time *)
  as_CreatedAt : time.Time;
  as_UpdatedAt : time.Time;
  as_Index : Z
}.

Record AccountsMonitorResponse := {
  Timestamp : time.Time;
  TotalCount : Z;
  ActiveCount : Z;
  ErrorCount : Z;
  CooldownCount : Z;
  Accounts : list AccountStatus
}.

(** The four operational states. *)
Inductive Bucket := Active | ErrorState | Cooldown | DisabledState.

Definition bucket_name (b : Bucket) : string :=
  match b with
  | Active => "active"
  | ErrorState => "error"
  | Cooldown => "cooldown"
  | DisabledState => "disabled"
  end.

Global Instance Bucket_eq_dec : EqDecision Bucket.
Proof. solve_decision. Defined.

(** ** The handler *)
Section Handler.

(** [extractLastRefreshTimestamp] lives in another file of the package; the
    handler only stores its result, so it is a parameter here. *)
Variable extractLastRefreshTimestamp :
  option (gmap string MetaValue) -> option time.Time.

(* email, ok := auth.Metadata["email"].(string) *)
Definition extractEmail (md : option (gmap string MetaValue)) : string :=
  match md with
  | None => ""
  | Some m =>
      match m !! "email" with
      | Some (MetaString email) => email
      | _ => ""
      end
  end.

(* lines 106-114 *)
Definition copyLastError (le : option Error) : option (gmap string JSONValue) :=
  match le with
  | None => None
  | Some e =>
      let m : gmap string JSONValue :=
        <["message" := JString (Message e)]>
          (<["code" := JString (Code e)]> ∅) in
      Some (if negb (HTTPStatus e =? 0)
            then <["http_status" := JNumber (HTTPStatus e)]> m
            else m)
  end.

(* lines 67-114: the projection of one registry record *)
Definition buildStatus (auth : Auth) : AccountStatus :=
  {| as_ID := ID auth;
     as_Provider := Provider auth;
     as_Label := Label auth;
     as_Email := extractEmail (Metadata auth);
     as_Status := Status auth;
     as_StatusMessage := StatusMessage auth;
     as_Disabled := Disabled auth;
     as_Unavailable := Unavailable auth;
     as_QuotaExceeded := Exceeded (Quota auth);
     as_QuotaReason := Reason (Quota auth);
     as_NextRecoverAt :=
       if negb (time.IsZero (NextRecoverAt (Quota auth)))
       then Some (NextRecoverAt (Quota auth)) else None;
     as_NextRetryAt :=
       if negb (time.IsZero (NextRetryAfter auth))
       then Some (NextRetryAfter auth) else None;
     as_BackoffLevel := BackoffLevel (Quota auth);
     as_LastError := copyLastError (LastError auth);
     as_LastRefresh := extractLastRefreshTimestamp (Metadata auth);
     as_CreatedAt := CreatedAt auth;
     as_UpdatedAt := UpdatedAt auth;
     as_Index := Index auth |}.

Definition appendAccount (r : AccountsMonitorResponse) (s : AccountStatus) :=
  {| Timestamp := Timestamp r; TotalCount := TotalCount r;
     ActiveCount := ActiveCount r; ErrorCount := ErrorCount r;
     CooldownCount := CooldownCount r; Accounts := Accounts r ++ [s] |}.

Definition incTotal (r : AccountsMonitorResponse) :=
  {| Timestamp := Timestamp r; TotalCount := int_incr (TotalCount r);
     ActiveCount := ActiveCount r; ErrorCount := ErrorCount r;
     CooldownCount := CooldownCount r; Accounts := Accounts r |}.

Definition incActive (r : AccountsMonitorResponse) :=
  {| Timestamp := Timestamp r; TotalCount := TotalCount r;
     ActiveCount := int_incr (ActiveCount r); ErrorCount := ErrorCount r;
     CooldownCount := CooldownCount r; Accounts := Accounts r |}.

Definition incError (r : AccountsMonitorResponse) :=
  {| Timestamp := Timestamp r; TotalCount := TotalCount r;
     ActiveCount := ActiveCount r; ErrorCount := int_incr (ErrorCount r);
     CooldownCount := CooldownCount r; Accounts := Accounts r |}.

Definition incCooldown (r : AccountsMonitorResponse) :=
  {| Timestamp := Timestamp r; TotalCount := TotalCount r;
     ActiveCount := ActiveCount r; ErrorCount := ErrorCount r;
     CooldownCount := int_incr (CooldownCount r); Accounts := Accounts r |}.

(* lines 118-129: "Count statistics" *)
Definition countStatistics (now : time.Time) (auth : Auth)
    (response : AccountsMonitorResponse) : AccountsMonitorResponse :=
  let response := incTotal response in
  if Disabled auth then response
  else if Exceeded (Quota auth)
          || (Unavailable auth
              && negb (time.IsZero (NextRecoverAt (Quota auth)))
              && time.After (NextRecoverAt (Quota auth)) now)
  then incCooldown response
  else if Unavailable auth || String.eqb (Status auth) "error"
  then incError response
  else incActive response.

(* lines 62-130: one iteration of the range loop; a nil entry is skipped *)
Definition loopBody (now : time.Time) (response : AccountsMonitorResponse)
    (entry : option Auth) : AccountsMonitorResponse :=
  match entry with
  | None => response
  | Some auth =>
      countStatistics now auth (appendAccount response (buildStatus auth))
  end.

(* lines 57-60 *)
Definition emptyResponse (now : time.Time) : AccountsMonitorResponse :=
  {| Timestamp := now; TotalCount := 0; ActiveCount := 0; ErrorCount := 0;
     CooldownCount := 0; Accounts := [] |}.

(* lines 54-130: the snapshot built from the registry list *)
Definition aggregate (auths : list (option Auth)) (now : time.Time)
    : AccountsMonitorResponse :=
  fold_left (loopBody now) auths (emptyResponse now).

(** The state the count logic assigns to a record: which counter, if any,
    the branch structure of lines 120-129 selects. *)
Definition serverClassify (auth : Auth) (now : time.Time) : Bucket :=
  if Disabled auth then DisabledState
  else if Exceeded (Quota auth)
          || (Unavailable auth
              && negb (time.IsZero (NextRecoverAt (Quota auth)))
              && time.After (NextRecoverAt (Quota auth)) now)
  then Cooldown
  else if Unavailable auth || String.eqb (Status auth) "error"
  then ErrorState
  else Active.

(** *** HTTP layer

    The handler's observable behaviour is the sequence of calls it makes on
    its collaborators: the registry's [List], the clock, and [c.JSON]. *)
Record Manager := { List : list (option Auth) }.

Record Handler := { authManager : option Manager }.

Inductive Body :=
  | ErrorBody (msg : string)               (* gin.H{"error": msg} *)
  | SnapshotBody (r : AccountsMonitorResponse).

Inductive Effect :=
  | CallList (m : Manager)
  | CallNow
  | WriteJSON (code : Z) (body : Body).

Definition StatusOK : Z := 200.
Definition StatusInternalServerError : Z := 500.
Definition StatusServiceUnavailable : Z := 503.

(* [clock] is the value [time.Now()] returns when it is called *)
Definition GetAccountsMonitor (h : option Handler) (clock : time.Time)
    : list Effect :=
  match h with
  | None =>
      [WriteJSON StatusInternalServerError (ErrorBody "handler not initialized")]
  | Some h =>
      match authManager h with
      | None =>
          [WriteJSON StatusServiceUnavailable
             (ErrorBody "auth manager not available")]
      | Some m =>
          let auths := List m in
          let now := clock in
          [CallList m; CallNow;
           WriteJSON StatusOK (SnapshotBody (aggregate auths now))]
      end
  end.

End Handler.

(** ** JSON encoding of [AccountStatus]

    The object a client receives, as fixed by the struct tags: a field tagged
    [omitempty] is left out when it holds its empty value (the empty string, a
    nil pointer, a map without entries); [None] is an omitted key. *)
Module wire.
Record Account := {
  id : string;
  provider : string;
  label : string;
  email : option string;
  status : string;
  status_message : option string;
  disabled : bool;
  unavailable : bool;
  quota_exceeded : bool;
  quota_reason : option string;
  next_recover_at : option time.Time;
  next_retry_at : option time.Time;
  backoff_level : Z;
  last_error : option (gmap string JSONValue);
  last_refresh : option time.Time;
  created_at : time.Time;
  updated_at : time.Time;
  index : Z
}.
End wire.

Abbreviation WireAccount := wire.Account.

Definition omitempty_string (s : string) : option string :=
  if String.eqb s "" then None else Some s.

Definition omitempty_map (m : option (gmap string JSONValue))
    : option (gmap string JSONValue) :=
  match m with
  | None => None
  | Some m => if (size m =? 0)%nat then None else Some m
  end.

Definition encode (s : AccountStatus) : WireAccount :=
  {| wire.id := as_ID s;
     wire.provider := as_Provider s;
     wire.label := as_Label s;
     wire.email := omitempty_string (as_Email s);
     wire.status := as_Status s;
     wire.status_message := omitempty_string (as_StatusMessage s);
     wire.disabled := as_Disabled s;
     wire.unavailable := as_Unavailable s;
     wire.quota_exceeded := as_QuotaExceeded s;
     wire.quota_reason := omitempty_string (as_QuotaReason s);
     wire.next_recover_at := as_NextRecoverAt s;
     wire.next_retry_at := as_NextRetryAt s;
     wire.backoff_level := as_BackoffLevel s;
     wire.last_error := omitempty_map (as_LastError s);
     wire.last_refresh := as_LastRefresh s;
     wire.created_at := as_CreatedAt s;
     wire.updated_at := as_UpdatedAt s;
     wire.index := as_Index s |}.

(** ** The dashboard script *)

(* truthiness of an optional timestamp property: a present timestamp is a
   non-empty string, a missing property is [undefined] *)
Definition truthy_opt {A} (o : option A) : bool :=
  match o with Some _ => true | None => false end.

(* truthiness of a string: non-empty *)
Definition truthy_string (s : string) : bool := negb (String.eqb s "").

(* lines 432-438 *)
Definition getAccountStatus (account : WireAccount) : string :=
  if wire.disabled account then "disabled"
  else if wire.quota_exceeded account then "cooldown"
  else if wire.unavailable account && truthy_opt (wire.next_recover_at account) then "cooldown"
  else if wire.unavailable account || String.eqb (wire.status account) "error" then "error"
  else "active".

(* number-to-string conversion of an integer *)
Definition toString (z : Z) : string := NilEmpty.string_of_int (Z.to_int z).

(* lines 440-448; [ms] is a whole number of milliseconds *)
Definition formatDuration (ms : Z) : string :=
  if ms <=? 0 then "now"
  else
    let s := ms / 1000 in
    let m := s / 60 in
    let h := m / 60 in
    if 0 <? h then toString h +:+ "h " +:+ toString (Z.rem m 60) +:+ "m"
    else if 0 <? m then toString m +:+ "m " +:+ toString (Z.rem s 60) +:+ "s"
    else toString s +:+ "s".

(* String.prototype.toLowerCase, for text made of ASCII characters (codes
   below 128, see [asciiText]): there it maps A-Z to a-z and leaves every
   other character alone.  Text with other characters is outside this model,
   and the statements about case carry [asciiText] as a hypothesis. *)
Definition lowerChar (c : ascii) : ascii :=
  let n := nat_of_ascii c in
  if ((65 <=? n) && (n <=? 90))%nat then ascii_of_nat (n + 32) else c.

Fixpoint toLowerCase (s : string) : string :=
  match s with
  | EmptyString => EmptyString
  | String c s' => String (lowerChar c) (toLowerCase s')
  end.

(* String.prototype.includes: [sub] occurs in [s] *)
Fixpoint includes (s sub : string) : bool :=
  String.prefix sub s
  || match s with
     | EmptyString => false
     | String _ s' => includes s' sub
     end.

(* lines 452-459: the predicate passed to [data.accounts.filter] *)
Definition keepAccount (providerFilter statusFilter : string) (a : WireAccount)
    : bool :=
  if truthy_string providerFilter
     && negb (includes (toLowerCase (wire.provider a)) providerFilter)
  then false
  else if truthy_string statusFilter
          && negb (String.eqb (getAccountStatus a) statusFilter)
  then false
  else true.

(* [providerValue] and [statusValue] are the values of the two select boxes *)
Definition filterAccounts (providerValue statusValue : string)
    (accounts : list WireAccount) : list WireAccount :=
  let providerFilter := toLowerCase providerValue in
  let statusFilter := statusValue in
  List.filter (keepAccount providerFilter statusFilter) accounts.

(** *** The wording of the dashboard requirements, for comparison *)

(* "the largest two non-zero units among hours/minutes/seconds" *)
Definition formatDuration_spec (ms : Z) : string :=
  if ms <=? 0 then "now"
  else
    let s := ms / 1000 in
    let units :=
      [(s / 3600, "h"); ((s / 60) mod 60, "m"); (s mod 60, "s")] in
    let nonzero := List.filter (fun u => negb (fst u =? 0)) units in
    String.concat " "
      (List.map (fun u => toString (fst u) +:+ snd u) (firstn 2 nonzero)).

(* text made of ASCII characters only *)
Definition isAsciiChar (c : ascii) : bool := (nat_of_ascii c <? 128)%nat.

Fixpoint asciiText (s : string) : bool :=
  match s with
  | EmptyString => true
  | String c s' => isAsciiChar c && asciiText s'
  end.

(* the alphabet: each capital letter with its small letter *)
Definition letterPairs : list (ascii * ascii) :=
  [("A"%char, "a"%char); ("B"%char, "b"%char); ("C"%char, "c"%char);
   ("D"%char, "d"%char); ("E"%char, "e"%char); ("F"%char, "f"%char);
   ("G"%char, "g"%char); ("H"%char, "h"%char); ("I"%char, "i"%char);
   ("J"%char, "j"%char); ("K"%char, "k"%char); ("L"%char, "l"%char);
   ("M"%char, "m"%char); ("N"%char, "n"%char); ("O"%char, "o"%char);
   ("P"%char, "p"%char); ("Q"%char, "q"%char); ("R"%char, "r"%char);
   ("S"%char, "s"%char); ("T"%char, "t"%char); ("U"%char, "u"%char);
   ("V"%char, "v"%char); ("W"%char, "w"%char); ("X"%char, "x"%char);
   ("Y"%char, "y"%char); ("Z"%char, "z"%char)].

(* two characters that are equal, or the capital and the small form of one
   letter, in either order *)
Definition sameLetter (c d : ascii) : bool :=
  Ascii.eqb c d
  || existsb (λ p, (Ascii.eqb c (fst p) && Ascii.eqb d (snd p))
                   || (Ascii.eqb c (snd p) && Ascii.eqb d (fst p)))
       letterPairs.

(* two texts that are equal when letter case is ignored *)
Fixpoint ci_equal (s t : string) : Prop :=
  match s, t with
  | EmptyString, EmptyString => True
  | String c s', String d t' => sameLetter c d = true ∧ ci_equal s' t'
  | _, _ => False
  end.

(* "the filter string is a case-insensitive substring of the provider": some
   stretch of the provider equals the filter string up to letter case *)
Definition ci_substring (sub s : string) : Prop :=
  ∃ pre mid post, s = pre +:+ mid +:+ post ∧ ci_equal mid sub.

(* every character *)
Definition allChars : list ascii := map ascii_of_nat (seq 0 256).

(* rule 1-5 of the classifier, evaluated on a registry record *)
Definition classify_spec (a : Auth) (now : time.Time) : Bucket :=
  if Disabled a then DisabledState
  else if Exceeded (Quota a) then Cooldown
  else if Unavailable a && negb (time.IsZero (NextRecoverAt (Quota a)))
          && (now <? NextRecoverAt (Quota a)) then Cooldown
  else if Unavailable a || String.eqb (Status a) "error" then ErrorState
  else Active.

(** ** Observations used to state the properties *)

(* the registry list with its nil entries removed *)
Definition removeNil (auths : list (option Auth)) : list (option Auth) :=
  List.filter truthy_opt auths.

(* the non-nil records of the registry list, in order *)
Definition records (auths : list (option Auth)) : list Auth := omap id auths.

(* how many non-nil records the count logic puts in state [b] *)
Definition countBucket (b : Bucket) (now : time.Time)
    (auths : list (option Auth)) : Z :=
  Z.of_nat (length (filter (λ a, serverClassify a now = b) (records auths))).

(* the counter of the response that stands for a state; none for disabled *)
Definition bump (b : Bucket) (r : AccountsMonitorResponse)
    : AccountsMonitorResponse :=
  match b with
  | Active => incActive r
  | ErrorState => incError r
  | Cooldown => incCooldown r
  | DisabledState => r
  end.

(* a populated value of the [last_error] mapping *)
Definition populated (v : JSONValue) : bool :=
  match v with
  | JString s => negb (String.eqb s "")
  | JNumber z => negb (z =? 0)
  end.

(* what [c.JSON] wrote: status code and body *)
Definition written (t : list Effect) : list (Z * Body) :=
  omap (λ e, match e with WriteJSON c b => Some (c, b) | _ => None end) t.

(* whether the registry was read *)
Definition readsRegistry (t : list Effect) : bool :=
  existsb (λ e, match e with CallList _ => true | _ => false end) t.

(** ** The dashboard script: rendering helpers *)

(* the double-quote character *)
Definition dquote : ascii := ascii_of_nat 34.

(* str.replace(/c/g, rep) for a one-character pattern *)
Fixpoint replaceAll (c : ascii) (rep : string) (s : string) : string :=
  match s with
  | EmptyString => EmptyString
  | String x s' =>
      if Ascii.eqb x c then rep +:+ replaceAll c rep s'
      else String x (replaceAll c rep s')
  end.

(* lines 513-516 *)
Definition escapeHtml (str : string) : string :=
  if negb (truthy_string str) then ""
  else
    replaceAll dquote "&quot;"
      (replaceAll ">" "&gt;"
         (replaceAll "<" "&lt;"
            (replaceAll "&" "&amp;" str))).

(* [o || d] where [o] is an optional string property *)
Definition or_else (o : option string) (d : string) : string :=
  match o with
  | Some s => if truthy_string s then s else d
  | None => d
  end.

(* line 485: account.email || account.label || 'Unknown' *)
Definition displayName (account : WireAccount) : string :=
  or_else (wire.email account)
    (if truthy_string (wire.label account) then wire.label account
     else "Unknown").

(* lines 506-511 *)
Definition getStatusText (account : WireAccount) (status recoveryTime : string)
    : string :=
  if String.eqb status "disabled" then "Disabled"
  else if String.eqb status "cooldown"
  then "Cooldown"
       +:+ (if truthy_string recoveryTime then " (" +:+ recoveryTime +:+ ")"
            else "")
  else if String.eqb status "error"
  then or_else (wire.status_message account) "Error"
  else "Active".

(* lines 477-480; [None] is the TypeError raised when [message] is a non-zero
   number, which has no [replace] method *)
Definition errorHtml (account : WireAccount) : option string :=
  match wire.last_error account with
  | None => Some ""
  | Some le =>
      match le !! "message" with
      | None => Some ""
      | Some (JString msg) =>
          if truthy_string msg
          then Some ("<div class=" +:+ String dquote "error-message"
                     +:+ String dquote ">" +:+ escapeHtml msg +:+ "</div>")
          else Some ""
      | Some (JNumber z) => if z =? 0 then Some "" else None
      end
  end.

Section Render.

(** [new Date(x).getTime()]: the timestamp in milliseconds since the Unix
    epoch, [None] for NaN. *)
Variable getTime : time.Time -> option Z.

(* lines 468-475; [now] is [Date.now()] *)
Definition recoveryTime (account : WireAccount) (now : Z) : string :=
  match wire.next_recover_at account with
  | Some t =>
      match getTime t with
      | Some recoverAt =>
          if now <? recoverAt then formatDuration (recoverAt - now) else ""
      | None => ""
      end
  | None => ""
  end.

(* lines 467-492: the status line of a card *)
Definition cardStatusText (account : WireAccount) (now : Z) : string :=
  let status := getAccountStatus account in
  getStatusText account status (recoveryTime account now).

End Render.

(** ** The dashboard script: auto refresh (lines 534-540)

    The browser's interval timers: the live ones with their period in
    milliseconds, and the next unused timer handle.  Handles are positive
    integers shared with [setTimeout]. *)
Record Browser := {
  timers : gmap positive Z;
  nextTimer : positive
}.

Definition setInterval (period : Z) (b : Browser) : positive * Browser :=
  (nextTimer b,
   {| timers := <[nextTimer b := period]> (timers b);
      nextTimer := Pos.succ (nextTimer b) |}).

Definition clearInterval (h : positive) (b : Browser) : Browser :=
  {| timers := delete h (timers b); nextTimer := nextTimer b |}.

(* a one-shot timer, as [showToast] sets: it only uses up a handle *)
Definition setTimeout (b : Browser) : Browser :=
  {| timers := timers b; nextTimer := Pos.succ (nextTimer b) |}.

Record Page := {
  browser : Browser;
  autoRefreshInterval : option positive   (* null until a timer was set *)
}.

Definition initialPage : Page :=
  {| browser := {| timers := ∅; nextTimer := 1%positive |};
     autoRefreshInterval := None |}.

(* [seconds] is [parseInt] of the select box value, [None] for NaN *)
Definition setupAutoRefresh (seconds : option Z) (p : Page) : Page :=
  let b :=
    match autoRefreshInterval p with
    | Some h => clearInterval h (browser p)
    | None => browser p
    end in
  match seconds with
  | Some s =>
      if 0 <? s
      then let '(h, b') := setInterval (s * 1000) b in
           {| browser := b'; autoRefreshInterval := Some h |}
      else {| browser := b; autoRefreshInterval := autoRefreshInterval p |}
  | None => {| browser := b; autoRefreshInterval := autoRefreshInterval p |}
  end.

(* what can happen on the page between two renders *)
Inductive PageEvent :=
  | ChangeInterval (seconds : option Z)   (* the 'change' listener *)
  | ShowToast.                            (* showToast's setTimeout *)

Definition pageStep (p : Page) (e : PageEvent) : Page :=
  match e with
  | ChangeInterval seconds => setupAutoRefresh seconds p
  | ShowToast =>
      {| browser := setTimeout (browser p);
         autoRefreshInterval := autoRefreshInterval p |}
  end.

(** ** The dashboard script: fetching (lines 397-422) *)

(* the parsed response body *)
Record Payload := {
  total_count : Z;
  active_count : Z;
  error_count : Z;
  cooldown_count : Z;
  accounts : list WireAccount
}.

Inductive FetchOutcome :=
  | NetworkFailure (message : string)            (* fetch rejects *)
  | HttpResponse (status : Z) (body : string + Payload).
                      (* [inl m]: resp.json() throws an error with message m *)

Inductive UiEffect :=
  | ShowIndicator
  | HideIndicator
  | Request (authorization : option string)
  | Prompt
  | StoreKey (key : string)
  | Reload
  | Toast (message : string) (isError : bool).

(* resp.ok *)
Definition ok (status : Z) : bool := (200 <=? status) && (status <=? 299).

(* [promptAnswer] is what [prompt] returns, [None] when it is dismissed *)
Definition fetchAccounts (API_KEY : string) (outcome : FetchOutcome)
    (promptAnswer : option string) : list UiEffect * option Payload :=
  let request :=
    Request (if truthy_string API_KEY then Some ("Bearer " +:+ API_KEY)
             else None) in
  let '(effects, result) :=
    match outcome with
    | NetworkFailure m =>
        ([Toast ("Failed to fetch accounts: " +:+ m) true], None)
    | HttpResponse st body =>
        if negb (ok st) then
          if (st =? 401) || (st =? 403) then
            ([Prompt]
               ++ match promptAnswer with
                  | Some key =>
                      if truthy_string key then [StoreKey key; Reload] else []
                  | None => []
                  end,
             None)
          else
            ([Toast ("Failed to fetch accounts: " +:+ "HTTP " +:+ toString st)
                true], None)
        else
          match body with
          | inr data => ([], Some data)
          | inl m => ([Toast ("Failed to fetch accounts: " +:+ m) true], None)
          end
    end in
  ([ShowIndicator; request] ++ effects ++ [HideIndicator], result).

(** ** Further observations *)

(* the character-by-character reading of [escapeHtml] *)
Definition escapeChar (c : ascii) : string :=
  if Ascii.eqb c "&" then "&amp;"
  else if Ascii.eqb c "<" then "&lt;"
  else if Ascii.eqb c ">" then "&gt;"
  else if Ascii.eqb c dquote then "&quot;"
  else String c "".

Fixpoint escapeChars (s : string) : string :=
  match s with
  | EmptyString => EmptyString
  | String c s' => escapeChar c +:+ escapeChars s'
  end.

Fixpoint occurs (c : ascii) (s : string) : bool :=
  match s with
  | EmptyString => false
  | String x s' => Ascii.eqb x c || occurs c s'
  end.

(* the accounts of a snapshot as the dashboard receives them *)
Definition payloadOf (r : AccountsMonitorResponse) : list WireAccount :=
  map encode (Accounts r).

(* how many cards the status filter [s] alone leaves *)
Definition shown (s : string) (l : list WireAccount) : Z :=
  Z.of_nat (length (filterAccounts "" s l)).


(** ** Concrete registry contents used in the examples *)

Definition noLastRefresh (md : option (gmap string MetaValue))
    : option time.Time := None.

(* 2024-01-01T00:00:00Z, in nanoseconds since the zero time *)
Definition sampleNow : time.Time := 63839664000 * time.Second.

Definition sampleAuth (name prov st : string) (dis unavail exceeded : bool)
    (recoverAt : time.Time) (lastErr : option Error) : Auth :=
  {| ID := name; Index := 0; Provider := prov; Label := name; Status := st;
     StatusMessage := ""; Disabled := dis; Unavailable := unavail;
     Quota := {| Exceeded := exceeded; Reason := "";
                 NextRecoverAt := recoverAt; BackoffLevel := 0 |};
     LastError := lastErr; CreatedAt := 1; UpdatedAt := 1;
     NextRetryAfter := 0; Metadata := None |}.

Definition nominalAuth : Auth :=
  sampleAuth "a1" "codex" "active" false false false 0 None.

Definition disabledAuth : Auth :=
  sampleAuth "a2" "claude" "active" true false true 0 None.

Definition quotaAuth : Auth :=
  sampleAuth "a3" "claude" "error" false false true
    (time.Add sampleNow (60 * time.Second)) None.

Definition failingAuth : Auth :=
  sampleAuth "a4" "codex" "error" false true false 0
    (Some {| Code := ""; Message := ""; HTTPStatus := 0 |}).

(* unavailable, with a recovery time that passed one second ago *)
Definition recoveredAuth : Auth :=
  sampleAuth "a5" "gemini" "active" false true false
    (time.Add sampleNow (- time.Second)) None.

Definition sampleRegistry : list (option Auth) :=
  [Some disabledAuth; None; Some quotaAuth; Some failingAuth; None;
   Some nominalAuth].

(* payloads as the dashboard receives them: two providers, two states *)
Definition samplePayload : list WireAccount :=
  map (λ a, encode (buildStatus noLastRefresh a))
    [sampleAuth "p1" "claude" "active" false false false 0 None;
     sampleAuth "p2" "codex" "active" false false true 0 None;
     sampleAuth "p3" "codex" "active" false false false 0 None;
     sampleAuth "p4" "claude" "active" false false true 0 None].

Definition codexActive : WireAccount :=
  encode (buildStatus noLastRefresh
            (sampleAuth "p3" "codex" "active" false false false 0 None)).

(* the same four accounts with capitals in the provider names *)
Definition mixedCasePayload : list WireAccount :=
  map (λ a, encode (buildStatus noLastRefresh a))
    [sampleAuth "p1" "Claude" "active" false false false 0 None;
     sampleAuth "p2" "CODEX" "active" false false true 0 None;
     sampleAuth "p3" "Codex" "active" false false false 0 None;
     sampleAuth "p4" "CLAUDE" "active" false false true 0 None].

Definition codexMixedActive : WireAccount :=
  encode (buildStatus noLastRefresh
            (sampleAuth "p3" "Codex" "active" false false false 0 None)).

(** * Properties *)

(** ** Machine integers *)

Lemma wrap_int_small z : int_min <= z <= int_max → wrap_int z = z.
Proof.
  unfold wrap_int, int_min, int_max. intros Hz.
  rewrite Z.mod_small; lia.
Qed.

Lemma int_incr_small x : 0 <= x < int_max → int_incr x = x + 1.
Proof.
  intros Hx. unfold int_incr. apply wrap_int_small.
  unfold int_min, int_max in *. lia.
Qed.

(** ** The counting loop *)
Section Aggregation.

Variable xlr : option (gmap string MetaValue) -> option time.Time.

Lemma countStatistics_classify now a r :
  countStatistics now a r = bump (serverClassify a now) (incTotal r).
Proof.
  unfold countStatistics, serverClassify.
  destruct (Disabled a); [done|].
  destruct (Exceeded (Quota a) || _); [done|].
  by destruct (Unavailable a || _).
Qed.

Lemma serverClassify_rules a now : serverClassify a now = classify_spec a now.
Proof.
  unfold serverClassify, classify_spec, time.After.
  by destruct (Disabled a), (Exceeded (Quota a)), (Unavailable a).
Qed.

Lemma fold_loopBody_removeNil now auths : ∀ r,
  fold_left (loopBody xlr now) (removeNil auths) r = fold_left (loopBody xlr now) auths r.
Proof.
  induction auths as [|[a|] auths IH]; intros r; simpl; auto.
Qed.

Lemma fold_loopBody_Accounts now auths : ∀ r,
  Accounts (fold_left (loopBody xlr now) auths r)
  = Accounts r ++ map (buildStatus xlr) (records auths).
Proof.
  induction auths as [|[a|] auths IH]; intros r; simpl.
  - by rewrite app_nil_r.
  - rewrite IH, countStatistics_classify.
    destruct (serverClassify a now); simpl; by rewrite <- app_assoc.
  - apply IH.
Qed.

Lemma records_length_le auths : (length (records auths) ≤ length auths)%nat.
Proof.
  induction auths as [|[a|] auths IH]; simpl; lia.
Qed.

Lemma countBucket_nil b now : countBucket b now [] = 0.
Proof. done. Qed.

Lemma countBucket_skip b now auths :
  countBucket b now (None :: auths) = countBucket b now auths.
Proof. done. Qed.

Lemma countBucket_cons b now a auths :
  countBucket b now (Some a :: auths)
  = (if decide (serverClassify a now = b) then 1 else 0) + countBucket b now auths.
Proof.
  unfold countBucket, records.
  change (omap id (Some a :: auths)) with (a :: omap id auths).
  rewrite filter_cons. case_decide; [rewrite length_cons|]; lia.
Qed.

Lemma countBucket_bounds b now auths :
  0 <= countBucket b now auths <= Z.of_nat (length (records auths)).
Proof.
  unfold countBucket. pose proof (length_filter (λ a, serverClassify a now = b) (records auths)).
  lia.
Qed.

(* every record is in exactly one of the four states *)
Lemma countBucket_partition now auths :
  countBucket Active now auths + countBucket ErrorState now auths
  + countBucket Cooldown now auths + countBucket DisabledState now auths
  = Z.of_nat (length (records auths)).
Proof.
  induction auths as [|[a|] auths IH].
  - done.
  - rewrite !countBucket_cons. change (records (Some a :: auths)) with (a :: records auths).
    simpl length. destruct (serverClassify a now); repeat case_decide; try congruence; lia.
  - by rewrite !countBucket_skip.
Qed.

Lemma countBucket_disabled_zero now auths :
  countBucket DisabledState now auths = 0
  ↔ ∀ a, Some a ∈ auths → Disabled a = false.
Proof.
  induction auths as [|[a|] auths IH].
  - split; [|done]. intros _ a Ha. by apply elem_of_nil in Ha.
  - rewrite countBucket_cons.
    pose proof (countBucket_bounds DisabledState now auths) as Hb.
    split.
    + intros H0 a' Ha'. apply elem_of_cons in Ha' as [Heq|Hin].
      * inversion Heq; subst a'. case_decide as Hc; [lia|].
        unfold serverClassify in Hc. by destruct (Disabled a).
      * apply IH; [|done]. case_decide; lia.
    + intros Hall. case_decide as Hc.
      * unfold serverClassify in Hc.
        rewrite (Hall a) in Hc by (apply elem_of_cons; by left).
        destruct (_ || _); [done|]. by destruct (_ || _).
      * rewrite (proj2 IH); [done|]. intros a' Ha'. apply Hall, elem_of_cons. by right.
  - rewrite countBucket_skip, IH. split; intros H a Ha.
    + apply elem_of_cons in Ha as [?|?]; [done|by apply H].
    + apply H, elem_of_cons. by right.
Qed.

(** The counters after the loop, as long as no counter can reach the end of
    the [int] range. *)
Lemma fold_loopBody_counts now auths : ∀ r,
  0 <= TotalCount r → 0 <= ActiveCount r → 0 <= ErrorCount r →
  0 <= CooldownCount r →
  TotalCount r + Z.of_nat (length auths) <= int_max →
  ActiveCount r + Z.of_nat (length auths) <= int_max →
  ErrorCount r + Z.of_nat (length auths) <= int_max →
  CooldownCount r + Z.of_nat (length auths) <= int_max →
  let r' := fold_left (loopBody xlr now) auths r in
  TotalCount r' = TotalCount r + Z.of_nat (length (records auths))
  ∧ ActiveCount r' = ActiveCount r + countBucket Active now auths
  ∧ ErrorCount r' = ErrorCount r + countBucket ErrorState now auths
  ∧ CooldownCount r' = CooldownCount r + countBucket Cooldown now auths.
Proof.
  induction auths as [|[a|] auths IH]; intros r HT HA HE HC BT BA BE BC.
  - simpl. rewrite !countBucket_nil. lia.
  - cbn [fold_left loopBody]. rewrite countStatistics_classify.
    change (records (Some a :: auths)) with (a :: records auths).
    rewrite !countBucket_cons. cbn [length] in *.
    set (r1 := bump _ _).
    assert (TotalCount r1 = TotalCount r + 1) as ET.
    { unfold r1. destruct (serverClassify a now); simpl; apply int_incr_small; lia. }
    assert (ActiveCount r1 = ActiveCount r
              + (if decide (serverClassify a now = Active) then 1 else 0)) as EA.
    { unfold r1. destruct (serverClassify a now); simpl;
        repeat case_decide; try congruence; try lia.
      apply int_incr_small; lia. }
    assert (ErrorCount r1 = ErrorCount r
              + (if decide (serverClassify a now = ErrorState) then 1 else 0)) as EE.
    { unfold r1. destruct (serverClassify a now); simpl;
        repeat case_decide; try congruence; try lia.
      apply int_incr_small; lia. }
    assert (CooldownCount r1 = CooldownCount r
              + (if decide (serverClassify a now = Cooldown) then 1 else 0)) as EC.
    { unfold r1. destruct (serverClassify a now); simpl;
        repeat case_decide; try congruence; try lia.
      apply int_incr_small; lia. }
    specialize (IH r1). cbv zeta in IH.
    destruct IH as (IT & IA & IE & IC);
      rewrite ?ET, ?EA, ?EE, ?EC; repeat case_decide; lia.
  - cbn [fold_left loopBody]. rewrite !countBucket_skip.
    change (records (None :: auths)) with (records auths).
    cbn [length] in *. apply IH; lia.
Qed.

Lemma aggregate_counts auths now :
  Z.of_nat (length auths) <= int_max →
  TotalCount (aggregate xlr auths now) = Z.of_nat (length (records auths))
  ∧ ActiveCount (aggregate xlr auths now) = countBucket Active now auths
  ∧ ErrorCount (aggregate xlr auths now) = countBucket ErrorState now auths
  ∧ CooldownCount (aggregate xlr auths now) = countBucket Cooldown now auths.
Proof.
  intros Hlen. unfold aggregate.
  by destruct (fold_loopBody_counts now auths (emptyResponse now))
    as (-> & -> & -> & ->).
Qed.

End Aggregation.

Lemma serverClassify_disabled a now :
  serverClassify a now = DisabledState ↔ Disabled a = true.
Proof.
  unfold serverClassify. destruct (Disabled a); [done|].
  destruct (_ || _); [done|]. by destruct (_ || _).
Qed.

Lemma countBucket_disabled_flags now auths :
  countBucket DisabledState now auths
  = Z.of_nat (length (filter (λ a, Disabled a = true) (records auths))).
Proof.
  unfold countBucket. f_equal. f_equal.
  induction (records auths) as [|a l IH]; [done|].
  rewrite !filter_cons, IH.
  pose proof (serverClassify_disabled a now) as [H1 H2].
  repeat case_decide; naive_solver.
Qed.

(** ** The snapshot *)

(** C2. For every registry list (its length is a Go [int]) and every [now],
    the snapshot has [totalCount] equal to the number of emitted accounts,
    the three buckets sum to at most [totalCount], the gap is exactly the
    number of disabled records, and the sum equals [totalCount] if and only if
    no non-nil record of the list is disabled. *)
Theorem count_invariant xlr (auths : list (option Auth)) now :
  Z.of_nat (length auths) <= int_max →
  let r := aggregate xlr auths now in
  TotalCount r = Z.of_nat (length (Accounts r))
  ∧ ActiveCount r + ErrorCount r + CooldownCount r <= TotalCount r
  ∧ TotalCount r - (ActiveCount r + ErrorCount r + CooldownCount r)
    = Z.of_nat (length (filter (λ a, Disabled a = true) (records auths)))
  ∧ (ActiveCount r + ErrorCount r + CooldownCount r = TotalCount r
     ↔ ∀ a, Some a ∈ auths → Disabled a = false).
Proof.
  intros Hlen r.
  destruct (aggregate_counts xlr auths now Hlen) as (HT & HA & HE & HC).
  fold r in HT, HA, HE, HC.
  pose proof (countBucket_partition now auths) as Hpart.
  pose proof (countBucket_bounds DisabledState now auths) as Hdis.
  pose proof (countBucket_disabled_zero now auths) as Hzero.
  pose proof (countBucket_disabled_flags now auths) as Hflags.
  assert (length (Accounts r) = length (records auths)) as Hacc.
  { unfold r, aggregate. rewrite fold_loopBody_Accounts. simpl.
    by rewrite length_map. }
  rewrite Hacc, HT, HA, HE, HC. repeat split; try lia.
  - intros Heq. apply Hzero. lia.
  - intros Hall. apply Hzero in Hall. lia.
Qed.

Lemma count_invariant_witness :
  let r := aggregate noLastRefresh sampleRegistry sampleNow in
  (TotalCount r, ActiveCount r, ErrorCount r, CooldownCount r) = (4, 1, 1, 1)
  ∧ TotalCount r = Z.of_nat (length (Accounts r))
  ∧ ActiveCount r + ErrorCount r + CooldownCount r <= TotalCount r.
Proof.
  split; [reflexivity|].
  assert (Z.of_nat (length sampleRegistry) <= int_max) as Hlen
    by (vm_compute; discriminate).
  destruct (count_invariant noLastRefresh sampleRegistry sampleNow Hlen)
    as (H1 & H2 & _).
  exact (conj H1 H2).
Defined.

(** C6. The loop is one left-to-right pass over the registry list: the emitted
    accounts are the projections of the non-nil entries in list order, and the
    whole snapshot (accounts and the four counts) is the one obtained from the
    list with its nil entries removed. *)
Theorem aggregate_skips_nil xlr (auths : list (option Auth)) now :
  aggregate xlr auths now = fold_left (loopBody xlr now) auths (emptyResponse now)
  ∧ Accounts (aggregate xlr auths now) = map (buildStatus xlr) (records auths)
  ∧ aggregate xlr auths now = aggregate xlr (removeNil auths) now.
Proof.
  split; [done|]. split.
  - unfold aggregate. by rewrite fold_loopBody_Accounts.
  - unfold aggregate. by rewrite fold_loopBody_removeNil.
Qed.

(** ** Classification by the count logic *)

(** C3. A record that is not disabled, not quota-exceeded, unavailable, and
    whose [nextRecoverAt] is at or before [now] is classified as error by the
    server: the snapshot of that record alone counts it under [errorCount]. *)
Theorem recovered_is_error xlr (a : Auth) now :
  Disabled a = false →
  Exceeded (Quota a) = false →
  Unavailable a = true →
  NextRecoverAt (Quota a) <= now →
  serverClassify a now = ErrorState
  ∧ let r := aggregate xlr [Some a] now in
    (TotalCount r, ActiveCount r, ErrorCount r, CooldownCount r) = (1, 0, 1, 0).
Proof.
  intros Hd He Hu Ht.
  assert (serverClassify a now = ErrorState) as Hc.
  { unfold serverClassify, time.After. rewrite Hd, He, Hu. simpl.
    replace (now <? NextRecoverAt (Quota a)) with false
      by (symmetry; apply Z.ltb_ge; lia).
    by rewrite andb_false_r. }
  split; [done|].
  unfold aggregate. simpl. by rewrite countStatistics_classify, Hc.
Qed.

Lemma recovered_is_error_witness :
  serverClassify recoveredAuth sampleNow = ErrorState
  ∧ ErrorCount (aggregate noLastRefresh [Some recoveredAuth] sampleNow) = 1.
Proof.
  assert (NextRecoverAt (Quota recoveredAuth) <= sampleNow) as Ht
    by (vm_compute; discriminate).
  destruct (recovered_is_error noLastRefresh recoveredAuth sampleNow
              eq_refl eq_refl eq_refl Ht) as [Hc Hr].
  split; [exact Hc|]. exact (f_equal (λ p, snd (fst p)) Hr).
Defined.

(** C4. Precedence on server and client.  A disabled record is in the disabled
    state whatever its other fields hold: the count logic adds it to
    [totalCount] only and the dashboard classifier returns "disabled".  A
    record that is not disabled, is quota-exceeded and carries status "error"
    is cooldown on both sides. *)
Theorem precedence xlr (a : Auth) now :
  (Disabled a = true →
     serverClassify a now = DisabledState
     ∧ getAccountStatus (encode (buildStatus xlr a)) = "disabled"
     ∧ let r := aggregate xlr [Some a] now in
       (TotalCount r, ActiveCount r, ErrorCount r, CooldownCount r) = (1, 0, 0, 0))
  ∧ (Disabled a = false → Exceeded (Quota a) = true → Status a = "error" →
     serverClassify a now = Cooldown
     ∧ getAccountStatus (encode (buildStatus xlr a)) = "cooldown"
     ∧ let r := aggregate xlr [Some a] now in
       (TotalCount r, ActiveCount r, ErrorCount r, CooldownCount r) = (1, 0, 0, 1)).
Proof.
  split.
  - intros Hd.
    assert (serverClassify a now = DisabledState) as Hc
      by by apply serverClassify_disabled.
    repeat split; [done| |].
    + unfold getAccountStatus. simpl. by rewrite Hd.
    + unfold aggregate. simpl. by rewrite countStatistics_classify, Hc.
  - intros Hd He Hs.
    assert (serverClassify a now = Cooldown) as Hc.
    { unfold serverClassify. by rewrite Hd, He. }
    repeat split; [done| |].
    + unfold getAccountStatus. simpl. by rewrite Hd, He.
    + unfold aggregate. simpl. by rewrite countStatistics_classify, Hc.
Qed.

Lemma precedence_witness :
  (serverClassify disabledAuth sampleNow = DisabledState
   ∧ getAccountStatus (encode (buildStatus noLastRefresh disabledAuth)) = "disabled")
  ∧ (serverClassify quotaAuth sampleNow = Cooldown
     ∧ getAccountStatus (encode (buildStatus noLastRefresh quotaAuth)) = "cooldown").
Proof.
  destruct (precedence noLastRefresh disabledAuth sampleNow) as [Hdis _].
  destruct (precedence noLastRefresh quotaAuth sampleNow) as [_ Hq].
  destruct (Hdis eq_refl) as (H1 & H2 & _).
  destruct (Hq eq_refl eq_refl eq_refl) as (H3 & H4 & _).
  exact (conj (conj H1 H2) (conj H3 H4)).
Defined.

(** ** Server and dashboard classifiers compared *)

(** X7. The dashboard classifier, applied to the payload of a record, returns
    the state the count logic assigns to that record at [now], except for one
    kind of record: not disabled, not quota-exceeded, unavailable, with a
    recovery time that is set and no longer in the future.  The script tests
    only that [next_recover_at] is present. *)
Lemma client_agrees_iff xlr (a : Auth) now :
  getAccountStatus (encode (buildStatus xlr a)) = bucket_name (serverClassify a now)
  ↔ ¬ (Disabled a = false ∧ Exceeded (Quota a) = false ∧ Unavailable a = true
       ∧ NextRecoverAt (Quota a) ≠ 0 ∧ NextRecoverAt (Quota a) <= now).
Proof.
  unfold getAccountStatus, serverClassify. simpl.
  unfold time.After, time.IsZero.
  destruct (Disabled a) eqn:Hd; [split; [intros _ (? & _); done | done]|].
  destruct (Exceeded (Quota a)) eqn:He; [split; [intros _ (_ & ? & _); done | done]|].
  destruct (Unavailable a) eqn:Hu; simpl.
  2: { split; [intros _ (_ & _ & ? & _); done|intros _].
       by destruct (String.eqb (Status a) "error"). }
  destruct (Z.eqb_spec (NextRecoverAt (Quota a)) 0) as [Hz|Hz]; simpl.
  - split; [intros _ (_ & _ & _ & ? & _); done | done].
  - destruct (Z.ltb_spec now (NextRecoverAt (Quota a))) as [Hlt|Hge]; simpl.
    + split; [intros _ (_ & _ & _ & _ & ?); lia | done].
    + split; [done|]. intros Hn. exfalso. apply Hn. repeat split; done.
Qed.

(** C1. At [recoveredAuth] (unavailable, recovery time one second before
    [now]) the dashboard classifier returns "cooldown" while the count logic
    classifies the record as error and counts it under [errorCount]. *)
Theorem client_diverges_after_recovery :
  getAccountStatus (encode (buildStatus noLastRefresh recoveredAuth)) = "cooldown"
  ∧ serverClassify recoveredAuth sampleNow = ErrorState
  ∧ (let r := aggregate noLastRefresh [Some recoveredAuth] sampleNow in
     (TotalCount r, ActiveCount r, ErrorCount r, CooldownCount r) = (1, 0, 1, 0))
  ∧ getAccountStatus (encode (buildStatus noLastRefresh recoveredAuth))
    ≠ bucket_name (serverClassify recoveredAuth sampleNow).
Proof. repeat split; done. Qed.

(** ** Optional fields of the payload *)

(** C10. [next_recover_at] and [next_retry_at] are present in the payload
    exactly when the registry timestamp is not the zero time, and then carry
    that timestamp; a zero timestamp is omitted. *)
Theorem recovery_times_present_iff_nonzero xlr (a : Auth) :
  let w := encode (buildStatus xlr a) in
  (is_Some (wire.next_recover_at w) ↔ time.IsZero (NextRecoverAt (Quota a)) = false)
  ∧ (is_Some (wire.next_retry_at w) ↔ time.IsZero (NextRetryAfter a) = false)
  ∧ (∀ t, wire.next_recover_at w = Some t → t = NextRecoverAt (Quota a))
  ∧ (∀ t, wire.next_retry_at w = Some t → t = NextRetryAfter a)
  ∧ (time.IsZero (NextRecoverAt (Quota a)) = true → wire.next_recover_at w = None)
  ∧ (time.IsZero (NextRetryAfter a) = true → wire.next_retry_at w = None).
Proof.
  simpl.
  destruct (time.IsZero (NextRecoverAt (Quota a)));
    destruct (time.IsZero (NextRetryAfter a)); simpl;
    repeat split; try done; try (by intros [? ?]); try (by intros; eexists);
    by intros ? [= <-].
Qed.

Lemma copyLastError_lookup (e : Error) :
  ∃ m, copyLastError (Some e) = Some m
    ∧ m !! "code" = Some (JString (Code e))
    ∧ m !! "message" = Some (JString (Message e))
    ∧ m !! "http_status"
      = (if HTTPStatus e =? 0 then None else Some (JNumber (HTTPStatus e)))
    ∧ (∀ k, k ≠ "code" → k ≠ "message" → k ≠ "http_status" → m !! k = None)
    ∧ m ≠ ∅.
Proof.
  unfold copyLastError. eexists. split; [reflexivity|].
  destruct (HTTPStatus e =? 0); simpl.
  - repeat split.
    + intros k ? ? ?. by rewrite !lookup_insert_ne.
    + apply insert_non_empty.
  - repeat split.
    + intros k ? ? ?. by rewrite !lookup_insert_ne.
    + apply insert_non_empty.
Qed.

(** C7, as the code has it.  [last_error] is omitted when the record has no
    last error.  Otherwise it is a mapping that always holds the keys "code"
    and "message" with the record's strings, empty or not, holds "http_status"
    exactly when the integer is non-zero (with that integer), and holds no
    other key. *)
Theorem last_error_projection xlr (a : Auth) :
  let w := encode (buildStatus xlr a) in
  (LastError a = None → wire.last_error w = None)
  ∧ (∀ e, LastError a = Some e →
       ∃ m : gmap string JSONValue,
         wire.last_error w = Some m
         ∧ m !! "code" = Some (JString (Code e))
         ∧ m !! "message" = Some (JString (Message e))
         ∧ m !! "http_status"
           = (if HTTPStatus e =? 0 then None else Some (JNumber (HTTPStatus e)))
         ∧ (∀ v, m !! "http_status" = Some v → populated v = true)
         ∧ (∀ k, k ≠ "code" → k ≠ "message" → k ≠ "http_status" → m !! k = None)).
Proof.
  simpl. split.
  - by intros ->.
  - intros e ->.
    destruct (copyLastError_lookup e) as (m & Hm & Hc & Hmsg & Hh & Hk & Hne).
    exists m. rewrite Hm. simpl.
    assert ((size m =? 0)%nat = false) as ->.
    { apply Nat.eqb_neq. by apply map_size_non_empty_iff. }
    repeat split; try done.
    intros v. rewrite Hh. destruct (Z.eqb_spec (HTTPStatus e) 0) as [|Hnz]; [done|].
    intros [= <-]. simpl. by apply negb_true_iff, Z.eqb_neq.
Qed.

Lemma last_error_projection_witness :
  wire.last_error (encode (buildStatus noLastRefresh nominalAuth)) = None
  ∧ ∃ m : gmap string JSONValue,
      wire.last_error (encode (buildStatus noLastRefresh failingAuth)) = Some m
      ∧ m !! "http_status" = None.
Proof.
  destruct (last_error_projection noLastRefresh nominalAuth) as [Hnone _].
  destruct (last_error_projection noLastRefresh failingAuth) as [_ Hsome].
  split; [exact (Hnone eq_refl)|].
  destruct (Hsome _ eq_refl) as (m & Hm & _ & _ & Hh & _).
  exists m. exact (conj Hm Hh).
Defined.

(** C7 as worded fails: for a record whose last error has an empty code, the
    emitted mapping carries the key "code" with the empty string. *)
Lemma last_error_has_empty_value :
  ∃ m : gmap string JSONValue,
    wire.last_error (encode (buildStatus noLastRefresh failingAuth)) = Some m
    ∧ m !! "code" = Some (JString "")
    ∧ ¬ (∀ k v, m !! k = Some v → populated v = true).
Proof.
  destruct (copyLastError_lookup {| Code := ""; Message := ""; HTTPStatus := 0 |})
    as (m & Hm & Hc & _ & _ & _ & Hne).
  exists m. change (LastError failingAuth)
    with (Some {| Code := ""; Message := ""; HTTPStatus := 0 |}) in *.
  unfold encode, buildStatus, wire.last_error, as_LastError.
  change (LastError failingAuth)
    with (Some {| Code := ""; Message := ""; HTTPStatus := 0 |}).
  rewrite Hm. unfold omitempty_map.
  assert ((size m =? 0)%nat = false) as ->
    by (apply Nat.eqb_neq; by apply map_size_non_empty_iff).
  repeat split; [done|].
  intros Hall. specialize (Hall "code" _ Hc). done.
Qed.

(** ** Initialisation guards *)

(** C8. A nil handler answers 500 and a nil auth manager answers 503, each
    with a one-line error body and without reading the registry or the clock;
    otherwise the handler reads the registry once and answers 200 with the
    snapshot of that list. *)
Theorem GetAccountsMonitor_status xlr clock :
  (let t := GetAccountsMonitor xlr None clock in
   written t = [(500, ErrorBody "handler not initialized")]
   ∧ readsRegistry t = false ∧ t = [WriteJSON 500 (ErrorBody "handler not initialized")])
  ∧ (∀ h, authManager h = None →
       let t := GetAccountsMonitor xlr (Some h) clock in
       written t = [(503, ErrorBody "auth manager not available")]
       ∧ readsRegistry t = false
       ∧ t = [WriteJSON 503 (ErrorBody "auth manager not available")])
  ∧ (∀ h m, authManager h = Some m →
       let t := GetAccountsMonitor xlr (Some h) clock in
       written t = [(200, SnapshotBody (aggregate xlr (List m) clock))]
       ∧ readsRegistry t = true
       ∧ t = [CallList m; CallNow;
              WriteJSON 200 (SnapshotBody (aggregate xlr (List m) clock))]).
Proof.
  split; [done|]. split.
  - intros h Hm. unfold GetAccountsMonitor. by rewrite Hm.
  - intros h m Hm. unfold GetAccountsMonitor. by rewrite Hm.
Qed.

Lemma GetAccountsMonitor_status_witness :
  written (GetAccountsMonitor noLastRefresh
             (Some {| authManager := None |}) sampleNow)
  = [(503, ErrorBody "auth manager not available")]
  ∧ written (GetAccountsMonitor noLastRefresh
               (Some {| authManager := Some {| List := sampleRegistry |} |})
               sampleNow)
    = [(200, SnapshotBody (aggregate noLastRefresh sampleRegistry sampleNow))].
Proof.
  destruct (GetAccountsMonitor_status noLastRefresh sampleNow) as (_ & H503 & H200).
  destruct (H503 {| authManager := None |} eq_refl) as (Hw & _).
  destruct (H200 {| authManager := Some {| List := sampleRegistry |} |}
              {| List := sampleRegistry |} eq_refl) as (Hw' & _).
  exact (conj Hw Hw').
Defined.

(** ** The dashboard: durations *)

Lemma append_assoc (a b c : string) : (a +:+ b) +:+ c = a +:+ b +:+ c.
Proof.
  induction a as [|x a IH]; [done|].
  change (String x ((a +:+ b) +:+ c) = String x (a +:+ b +:+ c)).
  by rewrite IH.
Qed.

(* the quotients and remainders [formatDuration] computes *)
Lemma duration_units (h m s r : Z) :
  0 <= h → 0 <= m < 60 → 0 <= s < 60 → 0 <= r < 1000 →
  let ms := ((h * 60 + m) * 60 + s) * 1000 + r in
  ms / 1000 = (h * 60 + m) * 60 + s
  ∧ ms / 1000 / 60 = h * 60 + m
  ∧ ms / 1000 / 60 / 60 = h
  ∧ Z.rem (ms / 1000 / 60) 60 = m
  ∧ Z.rem (ms / 1000) 60 = s.
Proof.
  intros Hh Hm Hs Hr ms.
  assert (ms / 1000 = (h * 60 + m) * 60 + s) as E1.
  { symmetry. apply (Z.div_unique ms 1000 _ r); [lia|unfold ms; lia]. }
  assert (((h * 60 + m) * 60 + s) / 60 = h * 60 + m) as E2.
  { symmetry. apply (Z.div_unique _ 60 _ s); lia. }
  assert ((h * 60 + m) / 60 = h) as E3.
  { symmetry. apply (Z.div_unique _ 60 _ m); lia. }
  rewrite E1, E2, E3. repeat split.
  - rewrite Z.rem_mod_nonneg by lia. symmetry. apply (Z.mod_unique _ 60 h); lia.
  - rewrite Z.rem_mod_nonneg by lia.
    symmetry. apply (Z.mod_unique _ 60 (h * 60 + m)); lia.
Qed.

Lemma formatDuration_nonpositive ms : ms <= 0 → formatDuration ms = "now".
Proof.
  intros Hms. unfold formatDuration.
  by replace (ms <=? 0) with true by (symmetry; apply Z.leb_le; lia).
Qed.

Lemma formatDuration_units (h m s r : Z) :
  0 <= h → 0 <= m < 60 → 0 <= s < 60 → 0 <= r < 1000 →
  0 < ((h * 60 + m) * 60 + s) * 1000 + r →
  formatDuration (((h * 60 + m) * 60 + s) * 1000 + r)
  = if 0 <? h then toString h +:+ "h " +:+ toString m +:+ "m"
    else if 0 <? m then toString m +:+ "m " +:+ toString s +:+ "s"
    else toString s +:+ "s".
Proof.
  intros Hh Hm Hs Hr Hpos.
  destruct (duration_units h m s r Hh Hm Hs Hr) as (E1 & E2 & E3 & E4 & E5).
  cbv zeta in *. unfold formatDuration.
  replace (_ <=? 0) with false by (symmetry; apply Z.leb_gt; lia).
  rewrite E4, E5, E3, E2, E1.
  destruct (Z.ltb_spec 0 h) as [Hh'|Hh']; [done|].
  assert (h = 0) as -> by lia. rewrite Z.mul_0_l, Z.add_0_l.
  destruct (Z.ltb_spec 0 m) as [Hm'|Hm']; [done|].
  assert (m = 0) as -> by lia. by rewrite Z.mul_0_l, Z.add_0_l.
Qed.

(** C5, as the code has it.  A zero or negative duration renders as "now".  A
    positive duration of [h] hours, [m] minutes, [s] seconds (and [r] further
    milliseconds) renders as hours and minutes when [h] is positive, else as
    minutes and seconds when [m] is positive, else as seconds alone; the
    second unit is printed also when it is zero, and a duration below one
    second renders as "0s".  The three documented examples hold. *)
Theorem formatDuration_renders :
  (∀ ms, ms <= 0 → formatDuration ms = "now")
  ∧ (∀ h m s r,
       0 <= h → 0 <= m < 60 → 0 <= s < 60 → 0 <= r < 1000 →
       0 < ((h * 60 + m) * 60 + s) * 1000 + r →
       formatDuration (((h * 60 + m) * 60 + s) * 1000 + r)
       = if 0 <? h then toString h +:+ "h " +:+ toString m +:+ "m"
         else if 0 <? m then toString m +:+ "m " +:+ toString s +:+ "s"
         else toString s +:+ "s")
  ∧ formatDuration 65000 = "1m 5s"
  ∧ formatDuration 3700000 = "1h 1m"
  ∧ formatDuration 45000 = "45s".
Proof.
  split; [exact formatDuration_nonpositive|].
  split; [exact formatDuration_units|done].
Qed.

Lemma formatDuration_renders_witness :
  formatDuration (-5) = "now"
  ∧ formatDuration 3600000 = "1h 0m"
  ∧ formatDuration 120000 = "2m 0s"
  ∧ formatDuration 999 = "0s".
Proof.
  destruct formatDuration_renders as (Hnow & Hunits & _).
  split; [apply (Hnow (-5)); lia|].
  split; [apply (Hunits 1 0 0 0); lia|].
  split; [apply (Hunits 0 2 0 0); lia|].
  apply (Hunits 0 0 0 999); lia.
Defined.

(** C5 as worded fails: one hour renders with a zero minutes unit, where the
    largest two non-zero units would give "1h". *)
Lemma formatDuration_shows_zero_unit :
  formatDuration 3600000 = "1h 0m"
  ∧ formatDuration_spec 3600000 = "1h"
  ∧ formatDuration 3600000 ≠ formatDuration_spec 3600000.
Proof. repeat split; done. Qed.

(** Where the unit after the leading one is not zero, the rendering is the
    largest two non-zero units. *)
Lemma formatDuration_agrees_with_spec (h m s r : Z) :
  0 <= h → 0 <= m < 60 → 0 <= s < 60 → 0 <= r < 1000 →
  (0 < h → 0 < m) → (h = 0 → 0 < s) →
  formatDuration (((h * 60 + m) * 60 + s) * 1000 + r)
  = formatDuration_spec (((h * 60 + m) * 60 + s) * 1000 + r).
Proof.
  intros Hh Hm Hs Hr Hhm Hhs.
  rewrite formatDuration_units by (try done; lia).
  destruct (duration_units h m s r Hh Hm Hs Hr) as (E1 & _).
  cbv zeta in E1. unfold formatDuration_spec.
  replace (_ <=? 0) with false by (symmetry; apply Z.leb_gt; lia).
  rewrite E1.
  assert (((h * 60 + m) * 60 + s) / 3600 = h) as ->.
  { symmetry. apply (Z.div_unique _ 3600 _ (m * 60 + s)); lia. }
  assert ((((h * 60 + m) * 60 + s) / 60) `mod` 60 = m) as ->.
  { replace (((h * 60 + m) * 60 + s) / 60) with (h * 60 + m)
      by (apply (Z.div_unique _ 60 _ s); lia).
    symmetry. apply (Z.mod_unique _ 60 h); lia. }
  assert (((h * 60 + m) * 60 + s) `mod` 60 = s) as ->.
  { symmetry. apply (Z.mod_unique _ 60 (h * 60 + m)); lia. }
  cbn [List.filter fst snd].
  destruct (Z.ltb_spec 0 h) as [Hh'|Hh'].
  - replace (h =? 0) with false by (symmetry; apply Z.eqb_neq; lia).
    replace (m =? 0) with false by (symmetry; apply Z.eqb_neq; lia).
    cbn. by rewrite append_assoc.
  - replace (h =? 0) with true by (symmetry; apply Z.eqb_eq; lia).
    replace (s =? 0) with false by (symmetry; apply Z.eqb_neq; lia).
    destruct (Z.ltb_spec 0 m) as [Hm'|Hm'].
    + replace (m =? 0) with false by (symmetry; apply Z.eqb_neq; lia).
      cbn. by rewrite append_assoc.
    + replace (m =? 0) with true by (symmetry; apply Z.eqb_eq; lia). done.
Qed.

(** ** The dashboard: filters *)

Lemma append_cons (c : ascii) (a b : string) :
  String c a +:+ b = String c (a +:+ b).
Proof. done. Qed.

Lemma append_empty_inv (a b : string) : a +:+ b = "" → a = "" ∧ b = "".
Proof. destruct a; [done|]. rewrite append_cons. discriminate. Qed.

Lemma prefix_spec (p : string) : ∀ s,
  String.prefix p s = true ↔ ∃ post, s = p +:+ post.
Proof.
  induction p as [|c p IH]; intros s.
  - destruct s; (split; [intros _; by eexists|done]).
  - destruct s as [|d s]; simpl.
    + split; [done|]. intros [post H]. rewrite append_cons in H. discriminate.
    + destruct (ascii_dec c d) as [->|Hne].
      * rewrite IH. split; intros [post H]; exists post.
        -- rewrite append_cons. by rewrite H.
        -- rewrite append_cons in H. by injection H.
      * split; [done|]. intros [post H]. rewrite append_cons in H.
        injection H as H1 _. by destruct Hne.
Qed.

Lemma includes_spec (sub : string) : ∀ s,
  includes s sub = true ↔ ∃ pre post, s = pre +:+ sub +:+ post.
Proof.
  induction s as [|c s IH].
  - cbn [includes]. rewrite orb_false_r, prefix_spec. split.
    + intros [post H]. by exists "", post.
    + intros (pre & post & H). symmetry in H.
      apply append_empty_inv in H as [-> H]. by exists post.
  - cbn [includes]. rewrite orb_true_iff, prefix_spec, IH. split.
    + intros [[post H]|(pre & post & H)].
      * by exists "", post.
      * exists (String c pre), post. rewrite append_cons. by rewrite H.
    + intros (pre & post & H). destruct pre as [|d pre].
      * left. by exists post.
      * right. rewrite append_cons in H. injection H as _ H. by exists pre, post.
Qed.

Lemma toLowerCase_empty (s : string) : toLowerCase s = "" ↔ s = "".
Proof. by destruct s. Qed.

Lemma truthy_string_spec (s : string) : truthy_string s = true ↔ s ≠ "".
Proof.
  unfold truthy_string. rewrite negb_true_iff. apply String.eqb_neq.
Qed.

Lemma keepAccount_spec (pf sf : string) (a : WireAccount) :
  keepAccount pf sf a = true
  ↔ (pf ≠ "" → includes (toLowerCase (wire.provider a)) pf = true)
    ∧ (sf ≠ "" → getAccountStatus a = sf).
Proof.
  unfold keepAccount.
  rewrite <- (truthy_string_spec pf), <- (truthy_string_spec sf).
  destruct (truthy_string pf), (includes _ pf), (truthy_string sf),
    (String.eqb_spec (getAccountStatus a) sf); simpl; intuition congruence.
Qed.

Lemma allChars_complete (c : ascii) : In c allChars.
Proof.
  rewrite <- (ascii_nat_embedding c). unfold allChars.
  apply in_map, in_seq. pose proof (nat_ascii_bounded c). lia.
Qed.

(* checked on every pair of characters *)
Lemma lowerChar_sameLetter_all :
  forallb (λ c, forallb (λ d,
      Bool.eqb (Ascii.eqb (lowerChar c) (lowerChar d)) (sameLetter c d))
    allChars) allChars = true.
Proof. vm_compute. reflexivity. Qed.

Lemma lowerChar_sameLetter (c d : ascii) :
  lowerChar c = lowerChar d ↔ sameLetter c d = true.
Proof.
  pose proof lowerChar_sameLetter_all as H.
  rewrite forallb_forall in H. specialize (H c (allChars_complete c)).
  rewrite forallb_forall in H. specialize (H d (allChars_complete d)).
  apply Bool.eqb_prop in H. rewrite <- H. symmetry. apply Ascii.eqb_eq.
Qed.

Lemma toLowerCase_ci_equal (s : string) : ∀ t,
  toLowerCase s = toLowerCase t ↔ ci_equal s t.
Proof.
  induction s as [|c s IH]; intros [|d t]; simpl; try done.
  rewrite <- IH, <- lowerChar_sameLetter. split.
  - intros [= H1 H2]. done.
  - intros [-> ->]. done.
Qed.

Lemma toLowerCase_app (a b : string) :
  toLowerCase (a +:+ b) = toLowerCase a +:+ toLowerCase b.
Proof.
  induction a as [|x a IH]; [done|].
  rewrite append_cons. cbn [toLowerCase]. by rewrite IH, append_cons.
Qed.

Lemma toLowerCase_app_inv (a : string) : ∀ s b,
  toLowerCase s = a +:+ b →
  ∃ s1 s2, s = s1 +:+ s2 ∧ toLowerCase s1 = a ∧ toLowerCase s2 = b.
Proof.
  induction a as [|x a IH]; intros s b H.
  - by exists "", s.
  - destruct s as [|c s]; [discriminate H|].
    rewrite append_cons in H. cbn [toLowerCase] in H. injection H as Hc H.
    destruct (IH s b H) as (s1 & s2 & -> & H1 & H2).
    exists (String c s1), s2. rewrite append_cons. cbn [toLowerCase].
    by rewrite Hc, H1.
Qed.

(* what the script tests, against the notion that does not mention
   [toLowerCase] *)
Lemma lowered_includes_spec (sub s : string) :
  (∃ pre post, toLowerCase s = pre +:+ toLowerCase sub +:+ post)
  ↔ ci_substring sub s.
Proof.
  unfold ci_substring. split.
  - intros (pre' & post' & H).
    apply toLowerCase_app_inv in H as (pre & rest & -> & _ & H).
    apply toLowerCase_app_inv in H as (mid & post & -> & H & _).
    exists pre, mid, post. split; [done|]. by apply toLowerCase_ci_equal.
  - intros (pre & mid & post & -> & H). apply toLowerCase_ci_equal in H.
    exists (toLowerCase pre), (toLowerCase post).
    by rewrite !toLowerCase_app, H.
Qed.

(** C9. For ASCII text, the filter keeps exactly the accounts that pass both
    active filters: a non-empty provider value requires that some stretch of
    the account's provider equals it up to letter case (capital and small
    forms of a letter count as equal, nothing else does); a non-empty status
    value requires the classifier to return exactly that value.  On four
    accounts with providers codex and claude and states active and cooldown,
    provider "cod" with status "active" keeps the one codex account that is
    active, also when the providers and the filter value differ in case. *)
Theorem filter_conjunction (providerValue statusValue : string)
    (accounts : list WireAccount) (a : WireAccount) :
  asciiText providerValue = true →
  Forall (λ x, asciiText (wire.provider x) = true) accounts →
  (a ∈ filterAccounts providerValue statusValue accounts
   ↔ a ∈ accounts
     ∧ (providerValue ≠ "" → ci_substring providerValue (wire.provider a))
     ∧ (statusValue ≠ "" → getAccountStatus a = statusValue))
  ∧ map getAccountStatus samplePayload = ["active"; "cooldown"; "active"; "cooldown"]
  ∧ filterAccounts "cod" "active" samplePayload = [codexActive]
  ∧ filterAccounts "cod" "active" mixedCasePayload = [codexMixedActive]
  ∧ filterAccounts "COD" "active" samplePayload = [codexActive]
  ∧ filterAccounts "Co" "" mixedCasePayload
    = List.filter (λ x, negb (String.eqb (wire.id x) "p1")
                        && negb (String.eqb (wire.id x) "p4"))
        mixedCasePayload
  ∧ filterAccounts "odc" "" mixedCasePayload = [].
Proof.
  intros _ _. split; [|done].
  unfold filterAccounts.
  rewrite !list_elem_of_In, filter_In, keepAccount_spec, includes_spec.
  by rewrite lowered_includes_spec, toLowerCase_empty.
Qed.

Lemma filter_conjunction_witness :
  codexMixedActive ∈ filterAccounts "COD" "active" mixedCasePayload.
Proof.
  assert (Forall (λ x, asciiText (wire.provider x) = true) mixedCasePayload)
    as Hascii by (repeat constructor).
  destruct (filter_conjunction "COD" "active" mixedCasePayload
              codexMixedActive eq_refl Hascii) as [Hiff _].
  apply Hiff. split; [|split].
  - apply list_elem_of_In. simpl. auto.
  - intros _. exists "", "Cod", "ex". split; [reflexivity|].
    simpl. auto.
  - intros _. reflexivity.
Defined.

(** * Further properties of the handler *)

Ltac by_cases := intuition (congruence || lia).

Lemma serverClassify_active_iff (a : Auth) now :
  serverClassify a now = Active
  ↔ Disabled a = false ∧ Exceeded (Quota a) = false ∧ Unavailable a = false
    ∧ Status a ≠ "error".
Proof.
  unfold serverClassify, time.IsZero, time.After.
  destruct (Disabled a), (Exceeded (Quota a)), (Unavailable a),
    (String.eqb_spec (Status a) "error"),
    (Z.eqb_spec (NextRecoverAt (Quota a)) 0),
    (Z.ltb_spec now (NextRecoverAt (Quota a))); simpl; by_cases.
Qed.

Lemma serverClassify_cooldown_iff (a : Auth) now :
  0 <= now →
  serverClassify a now = Cooldown
  ↔ Disabled a = false
    ∧ (Exceeded (Quota a) = true
       ∨ (Unavailable a = true ∧ now < NextRecoverAt (Quota a))).
Proof.
  intros Hnow. unfold serverClassify, time.IsZero, time.After.
  destruct (Disabled a), (Exceeded (Quota a)), (Unavailable a),
    (String.eqb_spec (Status a) "error"),
    (Z.eqb_spec (NextRecoverAt (Quota a)) 0),
    (Z.ltb_spec now (NextRecoverAt (Quota a))); simpl; by_cases.
Qed.

Lemma serverClassify_error_iff (a : Auth) now :
  0 <= now →
  serverClassify a now = ErrorState
  ↔ Disabled a = false ∧ Exceeded (Quota a) = false
    ∧ ((Unavailable a = true ∧ NextRecoverAt (Quota a) <= now)
       ∨ (Unavailable a = false ∧ Status a = "error")).
Proof.
  intros Hnow. unfold serverClassify, time.IsZero, time.After.
  destruct (Disabled a), (Exceeded (Quota a)), (Unavailable a),
    (String.eqb_spec (Status a) "error"),
    (Z.eqb_spec (NextRecoverAt (Quota a)) 0),
    (Z.ltb_spec now (NextRecoverAt (Quota a))); simpl; by_cases.
Qed.

(** X1. When [now] is not before the zero time, the three counters of the
    snapshot are the numbers of non-nil records with these field values:
    active counts the records that are not disabled, not quota-exceeded, not
    unavailable and whose status is not "error"; cooldown counts the
    non-disabled records that are quota-exceeded or unavailable with a
    recovery time after [now] (the separate zero-time test changes nothing);
    error counts the remaining non-disabled records. *)
Theorem snapshot_counts_by_fields xlr (auths : list (option Auth)) now :
  Z.of_nat (length auths) <= int_max →
  0 <= now →
  let r := aggregate xlr auths now in
  ActiveCount r
  = Z.of_nat (length (filter
      (λ a, Disabled a = false ∧ Exceeded (Quota a) = false
            ∧ Unavailable a = false ∧ Status a ≠ "error") (records auths)))
  ∧ CooldownCount r
    = Z.of_nat (length (filter
        (λ a, Disabled a = false
              ∧ (Exceeded (Quota a) = true
                 ∨ (Unavailable a = true ∧ now < NextRecoverAt (Quota a))))
        (records auths)))
  ∧ ErrorCount r
    = Z.of_nat (length (filter
        (λ a, Disabled a = false ∧ Exceeded (Quota a) = false
              ∧ ((Unavailable a = true ∧ NextRecoverAt (Quota a) <= now)
                 ∨ (Unavailable a = false ∧ Status a = "error")))
        (records auths))).
Proof.
  intros Hlen Hnow r.
  destruct (aggregate_counts xlr auths now Hlen) as (_ & HA & HE & HC).
  fold r in HA, HE, HC. rewrite HA, HE, HC. unfold countBucket.
  repeat split; f_equal; f_equal; apply list_filter_iff; intros a.
  - apply serverClassify_active_iff.
  - by apply serverClassify_cooldown_iff.
  - by apply serverClassify_error_iff.
Qed.

Lemma snapshot_counts_by_fields_witness :
  let r := aggregate noLastRefresh sampleRegistry sampleNow in
  ActiveCount r
  = Z.of_nat (length (filter
      (λ a, Disabled a = false ∧ Exceeded (Quota a) = false
            ∧ Unavailable a = false ∧ Status a ≠ "error")
      (records sampleRegistry))).
Proof.
  assert (Z.of_nat (length sampleRegistry) <= int_max) as Hlen
    by (vm_compute; discriminate).
  assert (0 <= sampleNow) as Hnow by (vm_compute; discriminate).
  exact (proj1 (snapshot_counts_by_fields noLastRefresh sampleRegistry
                  sampleNow Hlen Hnow)).
Defined.

Lemma records_app (l1 l2 : list (option Auth)) :
  records (l1 ++ l2) = records l1 ++ records l2.
Proof. apply omap_app. Qed.

Lemma countBucket_app b now (l1 l2 : list (option Auth)) :
  countBucket b now (l1 ++ l2) = countBucket b now l1 + countBucket b now l2.
Proof.
  unfold countBucket. rewrite records_app, filter_app, length_app. lia.
Qed.

(** X2. Aggregating a registry list made of two parts gives the accounts of
    the first part followed by those of the second, and each of the four
    counters is the sum of the counters of the two parts. *)
Theorem aggregate_app xlr (l1 l2 : list (option Auth)) now :
  Z.of_nat (length (l1 ++ l2)) <= int_max →
  let r := aggregate xlr (l1 ++ l2) now in
  let r1 := aggregate xlr l1 now in
  let r2 := aggregate xlr l2 now in
  Accounts r = Accounts r1 ++ Accounts r2
  ∧ TotalCount r = TotalCount r1 + TotalCount r2
  ∧ ActiveCount r = ActiveCount r1 + ActiveCount r2
  ∧ ErrorCount r = ErrorCount r1 + ErrorCount r2
  ∧ CooldownCount r = CooldownCount r1 + CooldownCount r2.
Proof.
  intros Hlen r r1 r2. rewrite length_app in Hlen.
  destruct (aggregate_counts xlr (l1 ++ l2) now) as (HT & HA & HE & HC);
    [rewrite length_app; lia|].
  destruct (aggregate_counts xlr l1 now) as (HT1 & HA1 & HE1 & HC1); [lia|].
  destruct (aggregate_counts xlr l2 now) as (HT2 & HA2 & HE2 & HC2); [lia|].
  unfold r, r1, r2.
  rewrite HT, HA, HE, HC, HT1, HA1, HE1, HC1, HT2, HA2, HE2, HC2.
  rewrite !countBucket_app, records_app, length_app.
  split; [|lia].
  unfold aggregate. rewrite !fold_loopBody_Accounts. simpl.
  by rewrite records_app, map_app.
Qed.

Lemma aggregate_app_witness :
  TotalCount (aggregate noLastRefresh (sampleRegistry ++ sampleRegistry) sampleNow)
  = TotalCount (aggregate noLastRefresh sampleRegistry sampleNow)
    + TotalCount (aggregate noLastRefresh sampleRegistry sampleNow).
Proof.
  assert (Z.of_nat (length (sampleRegistry ++ sampleRegistry)) <= int_max)
    as Hlen by (vm_compute; discriminate).
  destruct (aggregate_app noLastRefresh sampleRegistry sampleRegistry
              sampleNow Hlen) as (_ & HT & _).
  exact HT.
Defined.

Lemma countBucket_Permutation b now (l1 l2 : list (option Auth)) :
  l1 ≡ₚ l2 → countBucket b now l1 = countBucket b now l2.
Proof.
  intros Hp. unfold countBucket, records. by rewrite Hp.
Qed.

(** X3. The four counters do not depend on the order of the registry list:
    two lists that are permutations of each other give the same counters,
    and account lists that are permutations of each other. *)
Theorem aggregate_Permutation xlr (l1 l2 : list (option Auth)) now :
  Z.of_nat (length l1) <= int_max →
  l1 ≡ₚ l2 →
  let r1 := aggregate xlr l1 now in
  let r2 := aggregate xlr l2 now in
  TotalCount r1 = TotalCount r2
  ∧ ActiveCount r1 = ActiveCount r2
  ∧ ErrorCount r1 = ErrorCount r2
  ∧ CooldownCount r1 = CooldownCount r2
  ∧ Accounts r1 ≡ₚ Accounts r2.
Proof.
  intros Hlen Hp r1 r2.
  assert (Z.of_nat (length l2) <= int_max) as Hlen2 by by rewrite <- Hp.
  destruct (aggregate_counts xlr l1 now Hlen) as (HT1 & HA1 & HE1 & HC1).
  destruct (aggregate_counts xlr l2 now Hlen2) as (HT2 & HA2 & HE2 & HC2).
  unfold r1, r2. rewrite HT1, HA1, HE1, HC1, HT2, HA2, HE2, HC2.
  rewrite !(countBucket_Permutation _ now l1 l2 Hp).
  repeat split; try done.
  - unfold records. by rewrite Hp.
  - unfold aggregate. rewrite !fold_loopBody_Accounts. simpl.
    unfold records. by rewrite Hp.
Qed.

Lemma aggregate_Permutation_witness :
  ActiveCount (aggregate noLastRefresh sampleRegistry sampleNow)
  = ActiveCount (aggregate noLastRefresh (reverse sampleRegistry) sampleNow).
Proof.
  assert (Z.of_nat (length sampleRegistry) <= int_max) as Hlen
    by (vm_compute; discriminate).
  assert (sampleRegistry ≡ₚ reverse sampleRegistry) as Hp
    by (symmetry; apply reverse_Permutation).
  destruct (aggregate_Permutation noLastRefresh sampleRegistry
              (reverse sampleRegistry) sampleNow Hlen Hp) as (_ & HA & _).
  exact HA.
Defined.

(** X4. The snapshot has no accounts exactly when every entry of the registry
    list is nil, and it is then the empty response: zero counters, no
    accounts, timestamp [now]. *)
Theorem aggregate_empty_iff xlr (auths : list (option Auth)) now :
  (Accounts (aggregate xlr auths now) = [] ↔ ∀ e, e ∈ auths → e = None)
  ∧ (Accounts (aggregate xlr auths now) = [] →
     aggregate xlr auths now = emptyResponse now).
Proof.
  assert (Accounts (aggregate xlr auths now) = [] ↔ ∀ e, e ∈ auths → e = None)
    as Hiff.
  { unfold aggregate. rewrite fold_loopBody_Accounts. simpl.
    induction auths as [|[a|] auths IH]; simpl.
    - split; [|done]. intros _ e He. by apply elem_of_nil in He.
    - split; [done|]. intros H. specialize (H (Some a)).
      discriminate H. apply elem_of_cons. by left.
    - rewrite IH. split; intros H e He.
      + apply elem_of_cons in He as [->|He]; [done|by apply H].
      + apply H, elem_of_cons. by right. }
  split; [done|]. rewrite Hiff. clear Hiff. intros Hall.
  unfold aggregate. generalize (emptyResponse now).
  induction auths as [|e auths IH]; intros r; [done|].
  rewrite (Hall e) by (apply elem_of_cons; by left). simpl.
  apply IH. intros e' He'. apply Hall, elem_of_cons. by right.
Qed.

Lemma aggregate_empty_iff_witness :
  aggregate noLastRefresh [None; None] sampleNow = emptyResponse sampleNow.
Proof.
  destruct (aggregate_empty_iff noLastRefresh [None; None] sampleNow)
    as [_ H].
  exact (H eq_refl).
Defined.

(** X5. The payload carries an [email] exactly when the record's metadata
    map holds a non-empty string under the key "email", and then carries that
    string; a nil map, a missing key, a value of another type and the empty
    string all leave the field out. *)
Theorem email_present_iff xlr (a : Auth) (e : string) :
  wire.email (encode (buildStatus xlr a)) = Some e
  ↔ e ≠ "" ∧ ∃ m : gmap string MetaValue,
               Metadata a = Some m ∧ m !! "email" = Some (MetaString e).
Proof.
  simpl. unfold omitempty_string, extractEmail.
  destruct (Metadata a) as [m|]; simpl.
  - destruct (m !! "email") as [[s| | |]|] eqn:Hm; simpl;
      try (split; [done|intros (_ & m' & [= <-] & Hl); congruence]).
    destruct (String.eqb_spec s "") as [->|Hs].
    + split; [done|]. intros (He & m' & [= <-] & Hl).
      rewrite Hm in Hl. congruence.
    + split.
      * intros [= <-]. split; [done|]. by exists m.
      * intros (He & m' & [= <-] & Hl). rewrite Hm in Hl. congruence.
  - split; [done|]. by intros (_ & m' & ? & _).
Qed.

(** * Snapshot and dashboard compared *)

Lemma client_cases xlr (a : Auth) now :
  getAccountStatus (encode (buildStatus xlr a))
  = bucket_name (serverClassify a now)
  ∨ (serverClassify a now = ErrorState
     ∧ getAccountStatus (encode (buildStatus xlr a)) = "cooldown").
Proof.
  unfold getAccountStatus, serverClassify. simpl.
  unfold time.After, time.IsZero.
  destruct (Disabled a), (Exceeded (Quota a)), (Unavailable a),
    (String.eqb (Status a) "error"),
    (Z.eqb_spec (NextRecoverAt (Quota a)) 0),
    (Z.ltb_spec now (NextRecoverAt (Quota a))); simpl; auto.
Qed.

Lemma keepAccount_status_only (s : string) (w : WireAccount) :
  s ≠ "" → keepAccount "" s w = String.eqb (getAccountStatus w) s.
Proof.
  intros Hs. unfold keepAccount. simpl.
  apply truthy_string_spec in Hs. rewrite Hs. simpl.
  by destruct (String.eqb (getAccountStatus w) s).
Qed.

Lemma payloadOf_aggregate xlr (auths : list (option Auth)) now :
  payloadOf (aggregate xlr auths now)
  = map (λ a, encode (buildStatus xlr a)) (records auths).
Proof.
  unfold payloadOf, aggregate. rewrite fold_loopBody_Accounts. simpl.
  by rewrite map_map.
Qed.

Lemma shown_nil s : shown s [] = 0.
Proof. done. Qed.

Lemma shown_cons (s : string) (w : WireAccount) (l : list WireAccount) :
  s ≠ "" →
  shown s (w :: l)
  = (if String.eqb (getAccountStatus w) s then 1 else 0) + shown s l.
Proof.
  intros Hs. unfold shown, filterAccounts. simpl.
  rewrite (keepAccount_status_only s w Hs).
  destruct (String.eqb (getAccountStatus w) s); simpl length; lia.
Qed.

Lemma shown_vs_countBucket xlr now (auths : list (option Auth)) :
  let p := map (λ a, encode (buildStatus xlr a)) (records auths) in
  shown "active" p = countBucket Active now auths
  ∧ shown "disabled" p = countBucket DisabledState now auths
  ∧ shown "cooldown" p + shown "error" p
    = countBucket Cooldown now auths + countBucket ErrorState now auths
  ∧ countBucket Cooldown now auths <= shown "cooldown" p.
Proof.
  induction auths as [|[a|] auths IH].
  - done.
  - change (records (Some a :: auths)) with (a :: records auths).
    cbv zeta in *. rewrite map_cons, !shown_cons, !countBucket_cons by done.
    destruct IH as (IA & ID & IS & IC).
    destruct (client_cases xlr a now) as [Hc|[Hs Hc]]; rewrite Hc.
    + destruct (serverClassify a now); simpl;
        repeat case_decide; try congruence; lia.
    + rewrite Hs. simpl. repeat case_decide; try congruence; lia.
  - apply IH.
Qed.

(** X6. The status filter of the dashboard against the counters of the same
    snapshot: the filter "active" shows exactly [activeCount] cards, the
    filter "disabled" shows the accounts that no counter includes, the
    filters "cooldown" and "error" together show [cooldownCount + errorCount]
    cards, and "cooldown" never shows fewer than [cooldownCount] nor "error"
    more than [errorCount]. *)
Theorem dashboard_filter_vs_counts xlr (auths : list (option Auth)) now :
  Z.of_nat (length auths) <= int_max →
  let r := aggregate xlr auths now in
  let p := payloadOf r in
  shown "active" p = ActiveCount r
  ∧ shown "disabled" p
    = TotalCount r - (ActiveCount r + ErrorCount r + CooldownCount r)
  ∧ shown "cooldown" p + shown "error" p = CooldownCount r + ErrorCount r
  ∧ CooldownCount r <= shown "cooldown" p
  ∧ shown "error" p <= ErrorCount r.
Proof.
  intros Hlen r p.
  destruct (aggregate_counts xlr auths now Hlen) as (HT & HA & HE & HC).
  fold r in HT, HA, HE, HC.
  pose proof (countBucket_partition now auths) as Hpart.
  unfold p, r. rewrite payloadOf_aggregate. fold r.
  destruct (shown_vs_countBucket xlr now auths) as (SA & SD & SS & SC).
  cbv zeta in *. rewrite HT, HA, HE, HC. lia.
Qed.

Lemma dashboard_filter_vs_counts_witness :
  shown "active" (payloadOf (aggregate noLastRefresh sampleRegistry sampleNow))
  = ActiveCount (aggregate noLastRefresh sampleRegistry sampleNow).
Proof.
  assert (Z.of_nat (length sampleRegistry) <= int_max) as Hlen
    by (vm_compute; discriminate).
  exact (proj1 (dashboard_filter_vs_counts noLastRefresh sampleRegistry
                  sampleNow Hlen)).
Defined.

(** * Further properties of the dashboard script *)

(** ** Countdown text *)

Lemma append_last_inj (a b : string) (c d : ascii) :
  a +:+ String c "" = b +:+ String d "" → c = d.
Proof.
  revert b. induction a as [|x a IH]; intros [|y b] H.
  - by injection H.
  - rewrite append_cons in H. injection H as _ H.
    destruct b; [discriminate H|rewrite append_cons in H; discriminate H].
  - rewrite append_cons in H. injection H as _ H.
    destruct a; [discriminate H|rewrite append_cons in H; discriminate H].
  - rewrite !append_cons in H. injection H as _ H. by apply (IH b).
Qed.

Lemma formatDuration_positive_shape (ms : Z) :
  0 < ms →
  ∃ x, formatDuration ms = x +:+ "m" ∨ formatDuration ms = x +:+ "s".
Proof.
  intros Hms. unfold formatDuration.
  replace (ms <=? 0) with false by (symmetry; apply Z.leb_gt; lia).
  cbv zeta. destruct (0 <? ms / 1000 / 60 / 60).
  - eexists. left. by rewrite <- !append_assoc.
  - destruct (0 <? ms / 1000 / 60).
    + eexists. right. by rewrite <- !append_assoc.
    + eexists. by right.
Qed.

Lemma formatDuration_positive_text (ms : Z) :
  0 < ms → formatDuration ms ≠ "now" ∧ formatDuration ms ≠ "".
Proof.
  intros Hms.
  destruct (formatDuration_positive_shape ms Hms) as (x & [-> | ->]); split;
    try (intros H; apply append_empty_inv in H as [_ H]; discriminate H);
    intros H; change "now" with ("no" +:+ "w") in H;
    apply append_last_inj in H; discriminate H.
Qed.

(** X8. The countdown of a card is empty unless the account has a
    [next_recover_at] that parses to an instant after the render time, and is
    then the formatted remaining time; it is never the text "now", because
    [formatDuration] is only called with a positive duration. *)
Theorem recoveryTime_text (getTime : time.Time → option Z)
    (account : WireAccount) (now : Z) :
  recoveryTime getTime account now ≠ "now"
  ∧ (recoveryTime getTime account now ≠ ""
     ↔ ∃ t recoverAt, wire.next_recover_at account = Some t
         ∧ getTime t = Some recoverAt ∧ now < recoverAt)
  ∧ (∀ t recoverAt, wire.next_recover_at account = Some t →
       getTime t = Some recoverAt → now < recoverAt →
       recoveryTime getTime account now = formatDuration (recoverAt - now)).
Proof.
  unfold recoveryTime.
  destruct (wire.next_recover_at account) as [t|].
  2: { repeat split; try done. by intros (? & ? & ? & _). }
  destruct (getTime t) as [recoverAt|] eqn:Hg.
  2: { repeat split; try done.
       - intros (t' & r' & [= <-] & ? & _). congruence.
       - intros t' r' [= <-] ?. congruence. }
  destruct (Z.ltb_spec now recoverAt) as [Hlt|Hge].
  - destruct (formatDuration_positive_text (recoverAt - now)) as [Hn He];
      [lia|].
    repeat split; try done.
    + intros _. by exists t, recoverAt.
    + intros t' r' [= <-] Hg' _. congruence.
  - repeat split; try done.
    + intros (t' & r' & [= <-] & Hg' & ?).
      assert (r' = recoverAt) by congruence. lia.
    + intros t' r' [= <-] Hg' ?.
      assert (r' = recoverAt) by congruence. lia.
Qed.

Lemma recoveryTime_text_witness :
  recoveryTime (λ t, Some (t / 1000000))
    (encode (buildStatus noLastRefresh quotaAuth)) (sampleNow / 1000000)
  = "1m 0s".
Proof.
  destruct (recoveryTime_text (λ t, Some (t / 1000000))
              (encode (buildStatus noLastRefresh quotaAuth))
              (sampleNow / 1000000)) as (_ & _ & H).
  exact (H _ _ eq_refl eq_refl eq_refl).
Defined.

(** ** Escaping *)

Lemma replaceAll_app (c : ascii) (rep a b : string) :
  replaceAll c rep (a +:+ b) = replaceAll c rep a +:+ replaceAll c rep b.
Proof.
  induction a as [|x a IH]; [done|].
  rewrite append_cons. cbn [replaceAll]. rewrite IH.
  destruct (Ascii.eqb x c); [by rewrite append_assoc|done].
Qed.

Lemma escapeChars_app (a b : string) :
  escapeChars (a +:+ b) = escapeChars a +:+ escapeChars b.
Proof.
  induction a as [|x a IH]; [done|].
  rewrite append_cons. cbn [escapeChars]. by rewrite IH, append_assoc.
Qed.

(* the four passes on one character *)
Lemma replace_passes_char (c : ascii) :
  replaceAll dquote "&quot;"
    (replaceAll ">" "&gt;"
       (replaceAll "<" "&lt;" (replaceAll "&" "&amp;" (String c ""))))
  = escapeChar c.
Proof.
  unfold escapeChar. cbn [replaceAll].
  destruct (Ascii.eqb c "&") eqn:E1; [done|]. cbn [replaceAll].
  destruct (Ascii.eqb c "<") eqn:E2; [done|]. cbn [replaceAll].
  destruct (Ascii.eqb c ">") eqn:E3; [done|]. cbn [replaceAll].
  by destruct (Ascii.eqb c dquote) eqn:E4.
Qed.

Lemma replace_passes (s : string) :
  replaceAll dquote "&quot;"
    (replaceAll ">" "&gt;"
       (replaceAll "<" "&lt;" (replaceAll "&" "&amp;" s)))
  = escapeChars s.
Proof.
  induction s as [|c s IH]; [done|].
  change (String c s) with (String c "" +:+ s).
  rewrite !replaceAll_app, IH, replace_passes_char. done.
Qed.

Lemma escapeHtml_chars (s : string) : escapeHtml s = escapeChars s.
Proof.
  unfold escapeHtml. destruct s as [|c s]; [done|].
  change (negb (truthy_string (String c s))) with false.
  cbv iota. apply replace_passes.
Qed.

(** X9. The four successive global replacements of [escapeHtml] act as one
    pass that maps each character on its own: the ampersand, the angle
    brackets and the double quote to their entities and every other character
    to itself; no later pass touches what an earlier pass produced. *)
Theorem escapeHtml_one_pass (s : string) : escapeHtml s = escapeChars s.
Proof. apply escapeHtml_chars. Qed.

Lemma occurs_app (c : ascii) (a b : string) :
  occurs c (a +:+ b) = occurs c a || occurs c b.
Proof.
  induction a as [|x a IH]; [done|].
  rewrite append_cons. cbn [occurs]. by rewrite IH, orb_assoc.
Qed.

Lemma occurs_escapeChar (c x : ascii) :
  c = "<"%char ∨ c = ">"%char ∨ c = dquote → occurs c (escapeChar x) = false.
Proof.
  intros Hc. unfold escapeChar.
  destruct (Ascii.eqb x "&") eqn:E1;
    [by destruct Hc as [->|[->| ->]]|].
  destruct (Ascii.eqb x "<") eqn:E2;
    [by destruct Hc as [->|[->| ->]]|].
  destruct (Ascii.eqb x ">") eqn:E3;
    [by destruct Hc as [->|[->| ->]]|].
  destruct (Ascii.eqb x dquote) eqn:E4;
    [by destruct Hc as [->|[->| ->]]|].
  cbn [occurs]. rewrite orb_false_r.
  by destruct Hc as [->|[->| ->]].
Qed.

(** X10. The result of [escapeHtml] contains no angle bracket and no double
    quote, whatever the input. *)
Theorem escapeHtml_no_markup (s : string) :
  occurs "<" (escapeHtml s) = false
  ∧ occurs ">" (escapeHtml s) = false
  ∧ occurs dquote (escapeHtml s) = false.
Proof.
  rewrite escapeHtml_chars.
  induction s as [|x s (IH1 & IH2 & IH3)]; [done|].
  cbn [escapeChars]. rewrite !occurs_app, IH1, IH2, IH3.
  rewrite !occurs_escapeChar; auto.
Qed.

Lemma escapeChar_nonempty (x : ascii) (A : string) : escapeChar x +:+ A ≠ "".
Proof.
  intros H. apply append_empty_inv in H as [H _]. unfold escapeChar in H.
  by repeat destruct (Ascii.eqb x _).
Qed.

Lemma escapeChar_prefix_inj (x y : ascii) (A B : string) :
  escapeChar x +:+ A = escapeChar y +:+ B → x = y ∧ A = B.
Proof.
  unfold escapeChar.
  destruct (Ascii.eqb_spec x "&") as [->|X1];
    [|destruct (Ascii.eqb_spec x "<") as [->|X2];
      [|destruct (Ascii.eqb_spec x ">") as [->|X3];
        [|destruct (Ascii.eqb_spec x dquote) as [->|X4]]]];
  (destruct (Ascii.eqb_spec y "&") as [->|Y1];
    [|destruct (Ascii.eqb_spec y "<") as [->|Y2];
      [|destruct (Ascii.eqb_spec y ">") as [->|Y3];
        [|destruct (Ascii.eqb_spec y dquote) as [->|Y4]]]]);
  intros H; cbv beta iota delta [String.append] in H;
    fold String.append in H;
    try discriminate H; try (injection H as H; by subst);
    try (injection H as H; congruence).
Qed.

Lemma escapeChars_inj (a : string) : ∀ b,
  escapeChars a = escapeChars b → a = b.
Proof.
  induction a as [|x a IH]; intros [|y b] H.
  - done.
  - symmetry in H. by apply escapeChar_nonempty in H.
  - by apply escapeChar_nonempty in H.
  - cbn [escapeChars] in H. apply escapeChar_prefix_inj in H as [-> H].
    by rewrite (IH b H).
Qed.

(** X11. [escapeHtml] loses no information: two texts with the same escaped
    form are the same text. *)
Theorem escapeHtml_injective (s1 s2 : string) :
  escapeHtml s1 = escapeHtml s2 → s1 = s2.
Proof. rewrite !escapeHtml_chars. apply escapeChars_inj. Qed.

Lemma escapeHtml_injective_witness : "a<b" = "a<b".
Proof. exact (escapeHtml_injective "a<b" "a<b" eq_refl). Defined.

Lemma length_append (a b : string) :
  String.length (a +:+ b) = (String.length a + String.length b)%nat.
Proof.
  induction a as [|x a IH]; [done|].
  rewrite append_cons. cbn [String.length]. by rewrite IH.
Qed.

Lemma escapeChar_length (x : ascii) :
  (1 ≤ String.length (escapeChar x))%nat
  ∧ (Ascii.eqb x "&" || Ascii.eqb x "<" || Ascii.eqb x ">"
     || Ascii.eqb x dquote = true →
     (1 < String.length (escapeChar x))%nat).
Proof.
  unfold escapeChar.
  destruct (Ascii.eqb x "&"), (Ascii.eqb x "<"), (Ascii.eqb x ">"),
    (Ascii.eqb x dquote); cbn; split; (lia || done).
Qed.

Lemma escapeChars_length (s : string) :
  (String.length s ≤ String.length (escapeChars s))%nat
  ∧ (occurs "&" s || occurs "<" s || occurs ">" s || occurs dquote s = true →
     (String.length s < String.length (escapeChars s))%nat).
Proof.
  induction s as [|x s [IH1 IH2]]; [done|].
  cbn [escapeChars occurs String.length]. rewrite length_append.
  destruct (escapeChar_length x) as [L1 L2].
  split; [lia|]. intros H.
  destruct (Ascii.eqb x "&" || Ascii.eqb x "<" || Ascii.eqb x ">"
            || Ascii.eqb x dquote) eqn:Hx.
  - specialize (L2 eq_refl). lia.
  - apply orb_false_elim in Hx as [Hx Hd].
    apply orb_false_elim in Hx as [Hx Hg].
    apply orb_false_elim in Hx as [Ha Hl].
    rewrite Ha, Hl, Hg, Hd in H. simpl in H. specialize (IH2 H). lia.
Qed.

Lemma escapeChars_plain (s : string) :
  occurs "&" s || occurs "<" s || occurs ">" s || occurs dquote s = false →
  escapeChars s = s.
Proof.
  induction s as [|x s IH]; [done|].
  cbn [occurs escapeChars]. intros H.
  apply orb_false_elim in H as [H Hd]. apply orb_false_elim in H as [H Hg].
  apply orb_false_elim in H as [Ha Hl].
  apply orb_false_elim in Ha as [Ha Ha']. apply orb_false_elim in Hl as [Hl Hl'].
  apply orb_false_elim in Hg as [Hg Hg']. apply orb_false_elim in Hd as [Hd Hd'].
  unfold escapeChar. rewrite Ha, Hl, Hg, Hd.
  rewrite IH; [done|]. by rewrite Ha', Hl', Hg', Hd'.
Qed.

(** X12. [escapeHtml] never shortens a text, and it returns the text
    unchanged exactly when the text contains none of the four characters it
    escapes (ampersand, angle brackets, double quote); in particular the
    apostrophe is left as it is. *)
Theorem escapeHtml_unchanged_iff (s : string) :
  (String.length s ≤ String.length (escapeHtml s))%nat
  ∧ (escapeHtml s = s
     ↔ occurs "&" s || occurs "<" s || occurs ">" s || occurs dquote s = false).
Proof.
  rewrite escapeHtml_chars.
  destruct (escapeChars_length s) as [L1 L2]. split; [done|]. split.
  - intros Heq.
    destruct (occurs "&" s || occurs "<" s || occurs ">" s || occurs dquote s);
      [|done].
    specialize (L2 eq_refl). rewrite Heq in L2. lia.
  - apply escapeChars_plain.
Qed.

(** X13. Escaping a concatenation is concatenating the escaped parts, so
    escaping the pieces of a card separately gives the same text as escaping
    them together. *)
Theorem escapeHtml_app (a b : string) :
  escapeHtml (a +:+ b) = escapeHtml a +:+ escapeHtml b.
Proof. rewrite !escapeHtml_chars. apply escapeChars_app. Qed.

(** ** Card contents for the payloads the handler produces *)

(** X14. For every payload the handler produces, building the error box of a
    card never fails, and the box is shown exactly when the record has a last
    error with a non-empty message; it then holds the escaped message. *)
Theorem errorHtml_of_record xlr (a : Auth) :
  errorHtml (encode (buildStatus xlr a))
  = Some match LastError a with
         | Some e =>
             if String.eqb (Message e) "" then ""
             else "<div class=" +:+ String dquote "error-message"
                  +:+ String dquote ">" +:+ escapeHtml (Message e) +:+ "</div>"
         | None => ""
         end.
Proof.
  unfold errorHtml. simpl.
  destruct (LastError a) as [e|]; [|done].
  destruct (copyLastError_lookup e) as (m & Hm & _ & Hmsg & _ & _ & Hne).
  rewrite Hm. simpl.
  assert ((size m =? 0)%nat = false) as ->
    by (apply Nat.eqb_neq; by apply map_size_non_empty_iff).
  rewrite Hmsg. unfold truthy_string.
  by destruct (String.eqb (Message e) "").
Qed.

(** X15. The name shown on a card is never empty: it is the string stored
    under "email" in the record's metadata when that is non-empty, else the
    record's label when that is non-empty, else "Unknown". *)
Theorem displayName_of_record xlr (a : Auth) :
  let w := encode (buildStatus xlr a) in
  displayName w ≠ ""
  ∧ displayName w
    = if negb (String.eqb (extractEmail (Metadata a)) "")
      then extractEmail (Metadata a)
      else if negb (String.eqb (Label a) "") then Label a
      else "Unknown".
Proof.
  simpl. unfold displayName. simpl.
  unfold omitempty_string, or_else, truthy_string.
  destruct (String.eqb_spec (extractEmail (Metadata a)) "") as [He|He]; simpl.
  - destruct (String.eqb_spec (Label a) ""); simpl; split; done.
  - apply String.eqb_neq in He as He'. rewrite He'. simpl. done.
Qed.

Lemma getAccountStatus_values (w : WireAccount) :
  getAccountStatus w = "disabled" ∨ getAccountStatus w = "cooldown"
  ∨ getAccountStatus w = "error" ∨ getAccountStatus w = "active".
Proof.
  unfold getAccountStatus.
  destruct (wire.disabled w); [auto|].
  destruct (wire.quota_exceeded w); [auto|].
  destruct (_ && _); [auto|]. destruct (_ || _); auto.
Qed.

Lemma or_else_nonempty (o : option string) (d : string) :
  d ≠ "" → or_else o d ≠ "".
Proof.
  intros Hd. unfold or_else. destruct o as [s|]; [|done].
  destruct (truthy_string s) eqn:Hs; [|done]. by apply truthy_string_spec.
Qed.

(** X16. The status line of a card is never empty, for any account and
    render time.  For a payload of the handler that the dashboard classifies
    as error, the line is the record's status message, or "Error" when the
    record has none. *)
Theorem cardStatusText_shown (getTime : time.Time → option Z) xlr :
  (∀ (w : WireAccount) now, cardStatusText getTime w now ≠ "")
  ∧ (∀ (a : Auth) now,
       getAccountStatus (encode (buildStatus xlr a)) = "error" →
       cardStatusText getTime (encode (buildStatus xlr a)) now
       = if String.eqb (StatusMessage a) "" then "Error" else StatusMessage a).
Proof.
  split.
  - intros w now. unfold cardStatusText, getStatusText.
    destruct (getAccountStatus_values w) as [-> | [-> | [-> | ->]]]; simpl.
    + done.
    + intros H. apply append_empty_inv in H as [H _]. discriminate H.
    + by apply or_else_nonempty.
    + done.
  - intros a now Hs. unfold cardStatusText, getStatusText. rewrite Hs. simpl.
    unfold omitempty_string, or_else, truthy_string.
    destruct (String.eqb (StatusMessage a) "") eqn:E; simpl; [done|].
    by rewrite E.
Qed.

Lemma cardStatusText_shown_witness :
  cardStatusText (λ t, Some (t / 1000000))
    (encode (buildStatus noLastRefresh failingAuth)) (sampleNow / 1000000)
  = "Error".
Proof.
  destruct (cardStatusText_shown (λ t, Some (t / 1000000)) noLastRefresh)
    as [_ H].
  exact (H failingAuth (sampleNow / 1000000) eq_refl).
Defined.

(** ** Filters, continued *)

Lemma filter_all {A} (f : A → bool) (l : list A) :
  (∀ x, f x = true) → List.filter f l = l.
Proof.
  intros Hf. induction l as [|x l IH]; simpl; [done|]. by rewrite Hf, IH.
Qed.

Lemma filter_none {A} (f : A → bool) (l : list A) :
  (∀ x, f x = false) → List.filter f l = [].
Proof.
  intros Hf. induction l as [|x l IH]; simpl; [done|]. by rewrite Hf.
Qed.

(** X17. With both select boxes on "All" the filter keeps every account in
    order.  A status value that is not one of "active", "cooldown", "error",
    "disabled" keeps no account, so that the empty state is rendered. *)
Theorem filterAccounts_edges (accounts : list WireAccount) :
  filterAccounts "" "" accounts = accounts
  ∧ (∀ providerValue statusValue,
       statusValue ≠ "" → statusValue ≠ "active" → statusValue ≠ "cooldown" →
       statusValue ≠ "error" → statusValue ≠ "disabled" →
       filterAccounts providerValue statusValue accounts = []).
Proof.
  split.
  - unfold filterAccounts. by apply filter_all.
  - intros pv sv H0 H1 H2 H3 H4. unfold filterAccounts. apply filter_none.
    intros w. apply not_true_is_false. rewrite keepAccount_spec.
    intros [_ Hs]. specialize (Hs H0).
    destruct (getAccountStatus_values w) as [E|[E|[E|E]]]; congruence.
Qed.

Lemma filterAccounts_edges_witness :
  filterAccounts "codex" "Active" samplePayload = [].
Proof.
  destruct (filterAccounts_edges samplePayload) as [_ H].
  apply H; discriminate.
Defined.

Lemma filter_filter {A} (f g : A → bool) (l : list A) :
  List.filter f (List.filter g l) = List.filter (λ x, g x && f x) l.
Proof.
  induction l as [|x l IH]; simpl; [done|].
  destruct (g x); simpl; [|done]. destruct (f x); by rewrite IH.
Qed.

Lemma keepAccount_split (pf sf : string) (w : WireAccount) :
  keepAccount pf sf w = keepAccount "" sf w && keepAccount pf "" w.
Proof.
  unfold keepAccount. simpl.
  destruct (truthy_string pf && _); simpl; [by rewrite andb_false_r|].
  by destruct (truthy_string sf && _).
Qed.

(** X18. The two filters act independently: filtering by provider and status
    at once is filtering by status and then by provider, or by provider and
    then by status; and filtering a second time with the same values changes
    nothing. *)
Theorem filterAccounts_compose (providerValue statusValue : string)
    (accounts : list WireAccount) :
  filterAccounts providerValue statusValue accounts
  = filterAccounts providerValue "" (filterAccounts "" statusValue accounts)
  ∧ filterAccounts providerValue statusValue accounts
    = filterAccounts "" statusValue (filterAccounts providerValue "" accounts)
  ∧ filterAccounts providerValue statusValue
      (filterAccounts providerValue statusValue accounts)
    = filterAccounts providerValue statusValue accounts.
Proof.
  unfold filterAccounts. rewrite !filter_filter. simpl. repeat split.
  - apply filter_ext. intros w. apply keepAccount_split.
  - apply filter_ext. intros w. rewrite andb_comm. apply keepAccount_split.
  - apply filter_ext. intros w. by rewrite andb_diag.
Qed.

(** ** Auto refresh *)

Lemma cleared_timers_empty (p : Page) :
  (∀ h, is_Some (timers (browser p) !! h) → autoRefreshInterval p = Some h) →
  timers (match autoRefreshInterval p with
          | Some h => clearInterval h (browser p)
          | None => browser p
          end) = ∅.
Proof.
  intros Hinv. apply map_empty. intros i.
  destruct (autoRefreshInterval p) as [h|] eqn:Hh; simpl.
  - destruct (decide (h = i)) as [->|Hne]; [apply lookup_delete_eq|].
    rewrite lookup_delete_ne by done.
    destruct (timers (browser p) !! i) eqn:Hi; [|done].
    specialize (Hinv i (mk_is_Some _ _ Hi)). congruence.
  - destruct (timers (browser p) !! i) eqn:Hi; [|done].
    specialize (Hinv i (mk_is_Some _ _ Hi)). congruence.
Qed.

Lemma setupAutoRefresh_timers (seconds : option Z) (p : Page) :
  (∀ h, is_Some (timers (browser p) !! h) → autoRefreshInterval p = Some h) →
  let p' := setupAutoRefresh seconds p in
  (∀ s, seconds = Some s → 0 < s →
     ∃ h, autoRefreshInterval p' = Some h
          ∧ timers (browser p') = {[ h := s * 1000 ]})
  ∧ (seconds = None ∨ (∃ s, seconds = Some s ∧ s <= 0) →
     timers (browser p') = ∅).
Proof.
  intros Hinv. pose proof (cleared_timers_empty p Hinv) as Hclr.
  unfold setupAutoRefresh. cbv zeta. split.
  - intros s -> Hs.
    replace (0 <? s) with true by (symmetry; apply Z.ltb_lt; lia).
    simpl. eexists. split; [done|]. by rewrite Hclr.
  - intros [->|(s & -> & Hs)]; [done|].
    by replace (0 <? s) with false by (symmetry; apply Z.ltb_ge; lia).
Qed.

Lemma pageStep_invariant (p : Page) (e : PageEvent) :
  (∀ h, is_Some (timers (browser p) !! h) → autoRefreshInterval p = Some h) →
  ∀ h, is_Some (timers (browser (pageStep p e)) !! h) →
       autoRefreshInterval (pageStep p e) = Some h.
Proof.
  intros Hinv h. destruct e as [seconds|]; [|apply Hinv]. simpl.
  destruct (setupAutoRefresh_timers seconds p Hinv) as [Hpos Hoff].
  cbv zeta in *.
  destruct seconds as [s|].
  - destruct (Z.lt_ge_cases 0 s) as [Hs|Hs].
    + destruct (Hpos s eq_refl Hs) as (h' & Hh' & Ht). rewrite Ht, Hh'.
      intros [x Hx]. apply lookup_singleton_Some in Hx as [-> _]. done.
    + rewrite Hoff by (right; by exists s). rewrite lookup_empty.
      by intros [? ?].
  - rewrite Hoff by by left. rewrite lookup_empty. by intros [? ?].
Qed.

Lemma reachable_invariant (es : list PageEvent) : ∀ p,
  (∀ h, is_Some (timers (browser p) !! h) → autoRefreshInterval p = Some h) →
  ∀ h, is_Some (timers (browser (fold_left pageStep es p)) !! h) →
       autoRefreshInterval (fold_left pageStep es p) = Some h.
Proof.
  induction es as [|e es IH]; intros p Hinv; [done|].
  simpl. apply IH. by apply pageStep_invariant.
Qed.

Lemma initialPage_invariant h :
  is_Some (timers (browser initialPage) !! h) →
  autoRefreshInterval initialPage = Some h.
Proof. simpl. rewrite lookup_empty. by intros [? ?]. Qed.

(** X19. After any sequence of interval changes and toasts, at most one
    refresh timer is live, and it is the one the script remembers.  Right
    after choosing a positive interval exactly one timer is live, with that
    interval in milliseconds as its period; right after choosing "Off" (or a
    value that is not a number) no timer is live. *)
Theorem auto_refresh_single_timer (es : list PageEvent) :
  let p := fold_left pageStep es initialPage in
  (size (timers (browser p)) ≤ 1)%nat
  ∧ (∀ h, is_Some (timers (browser p) !! h) → autoRefreshInterval p = Some h)
  ∧ (∀ seconds,
       let p' := pageStep p (ChangeInterval seconds) in
       (∀ s, seconds = Some s → 0 < s →
          ∃ h, autoRefreshInterval p' = Some h
               ∧ timers (browser p') = {[ h := s * 1000 ]})
       ∧ (seconds = None ∨ (∃ s, seconds = Some s ∧ s <= 0) →
          timers (browser p') = ∅)).
Proof.
  intros p.
  pose proof (reachable_invariant es initialPage initialPage_invariant) as Hinv.
  fold p in Hinv. split; [|split; [done|]].
  - destruct (autoRefreshInterval p) as [h|] eqn:Hh.
    + assert (dom (timers (browser p)) ⊆ ({[ h ]} : gset positive)) as Hsub.
      { intros i Hi. apply elem_of_dom in Hi. apply Hinv in Hi.
        apply elem_of_singleton. congruence. }
      apply subseteq_size in Hsub.
      by rewrite size_dom, size_singleton in Hsub.
    + assert (timers (browser p) = ∅) as ->; [|rewrite map_size_empty; lia].
      apply map_empty. intros i.
      destruct (timers (browser p) !! i) eqn:Hi; [|done].
      specialize (Hinv i (mk_is_Some _ _ Hi)). congruence.
  - intros seconds. apply (setupAutoRefresh_timers seconds p Hinv).
Qed.

Lemma auto_refresh_single_timer_witness :
  ∃ h, timers (browser (fold_left pageStep
                          [ChangeInterval (Some 10); ShowToast;
                           ChangeInterval (Some 5)] initialPage))
       = {[ h := 5000 ]}.
Proof.
  destruct (auto_refresh_single_timer [ChangeInterval (Some 10); ShowToast])
    as (_ & _ & H).
  destruct (H (Some 5)) as [Hpos _].
  destruct (Hpos 5 eq_refl) as (h & _ & Ht); [lia|].
  exists h. exact Ht.
Defined.

(** ** Fetching *)

Lemma ok_spec (st : Z) : ok st = true ↔ 200 <= st <= 299.
Proof. unfold ok. rewrite andb_true_iff, !Z.leb_le. done. Qed.

(** X20. [fetchAccounts] returns data only for a response with a 2xx status
    whose body parses, and then returns that body; a network failure, any
    other status and an unparsable body all return null. *)
Theorem fetchAccounts_result (API_KEY : string) (outcome : FetchOutcome)
    (promptAnswer : option string) (data : Payload) :
  snd (fetchAccounts API_KEY outcome promptAnswer) = Some data
  ↔ ∃ st, outcome = HttpResponse st (inr data) ∧ 200 <= st <= 299.
Proof.
  unfold fetchAccounts. cbv zeta.
  destruct outcome as [m|st body]; simpl.
  - split; [done|]. by intros (? & ? & _).
  - destruct (ok st) eqn:Hok; simpl.
    + apply ok_spec in Hok. destruct body as [m|d]; simpl.
      * split; [done|]. by intros (? & ? & _).
      * split.
        -- intros [= ->]. by exists st.
        -- by intros (st' & [= _ ->] & _).
    + assert (¬ (200 <= st <= 299)) as Hn
        by (rewrite <- ok_spec; congruence).
      destruct ((st =? 401) || (st =? 403)); simpl;
        (split; [done|]); intros (st' & [= <- _] & ?); done.
Qed.







